(** * The Backrooms engine: world grid, progressive wall damage, collision
      solver and near-plane clipping

    A shallow embedding of [config.py], [procedural.py], [events.py],
    [ceiling_heights.py], [world.py], [collision.py] and the clipping part of
    [camera.py], followed by the properties proved about them.

    Numbers.  Python [int]s are [Z].  Python [float]s appear in two roles:

    - wall health and damage, the collision solver and the clipper compute on
      floats; there a Python float is a binary64 [float] of the kernel,
      operation for operation, so that every rounding is the program's;
    - decay rolls, wall centres and positions handed to the zone lookup are
      values the code only halves, scales by constants and compares; they are
      kept by their exact rational value in [Q]. *)

From Stdlib Require Import ZArith QArith Qround Floats Lia Lqa String List Bool.
From stdpp Require Import gmap.

Local Open Scope Z_scope.

Set Warnings "-inexact-float".

(** ** config.py *)

Module config.

Definition WALL_COLOR : Z * Z * Z := (240, 220, 80).
Definition PILLAR_COLOR : Z * Z * Z := (250, 230, 90).
Definition NEAR : Z := 1.
Definition PILLAR_SPACING : Z := 400.
Definition HALLWAY_WIDTH : Z := 100.
Definition PILLAR_SIZE : Z := 80.
Definition WALL_THICKNESS : Z := 20.
Definition WALL_HEIGHT : Z := 400.
Definition CEILING_HEIGHT_MULTIPLIER : Z := 1.
Definition ZONE_SIZE : Z := 10000.
Definition PILLAR_MODE : string := "normal".

Definition get_scaled_wall_height : Z := WALL_HEIGHT * CEILING_HEIGHT_MULTIPLIER.
Definition get_scaled_floor_y : Z := -2 * CEILING_HEIGHT_MULTIPLIER.

End config.

(** ** The Python runtime the code calls into

    [random.Random(seed)] and the built-in [hash] are not part of the
    repository.  They are taken as an interface: [Random seed n] is the
    [n]-th value returned by [random()] of a generator freshly seeded with
    the integer [seed], and [hash3 a b c] is [hash((a, b, c))] for integers.
    ([rng.uniform(a, b)] is [a + (b - a) * rng.random()] in CPython.)  An
    instance following CPython's Mersenne Twister and tuple hash is given in
    the module [CPython] below. *)

Class PyRuntime := {
  Random : Z -> nat -> Q;
  hash3 : Z -> Z -> Z -> Z
}.

(** [a < b] on exact values. *)
Definition Qltb (a b : Q) : bool := negb (Qle_bool b a).

(** Python's [min(a, b)] and [max(a, b)] on floats: the first argument
    unless the second compares strictly smaller (greater); a NaN second
    argument is never taken. *)
Definition fmin (a b : float) : float := if (b <? a)%float then b else a.
Definition fmax (a b : float) : float := if (a <? b)%float then b else a.

(** [int(x // d)] for a number [x] given by its exact value: the floor of
    the quotient.  For a float [x] this is what the program computes as long
    as [x] and the quotient are below 2^53 in magnitude, which covers every
    position of the game world; beyond that the program's quotient is
    rounded. *)
Definition floordiv (x : Q) (d : Z) : Z := Qfloor (x / inject_Z d).

(** ** procedural.py *)

Module ProceduralZone.

Record Archetype := {
  pillar_density : Q;
  wall_chance : Q;
  ceiling_height_var : Z;
  color_tint : Q * Q * Q;
  scale_multiplier : Q;
  room_size : Z;
  min_ceiling : Z;
  max_ceiling : Z
}.

Definition mk (pd wc : Q) (chv : Z) (tint : Q * Q * Q) (sm : Q) (rs mn mx : Z) : Archetype :=
  {| pillar_density := pd; wall_chance := wc; ceiling_height_var := chv;
     color_tint := tint; scale_multiplier := sm; room_size := rs;
     min_ceiling := mn; max_ceiling := mx |}.

(** The dict [ZONE_TYPES], in insertion order (the order [list(keys())]
    reads it in). *)
Definition ZONE_TYPES : list (string * Archetype) :=
  [ ("normal"%string, mk 0.35 0.25 8 (1.0, 1.0, 1.0)%Q 1.0 400 100 120);
    ("dense"%string, mk 0.55 0.4 5 (0.95, 0.95, 0.85)%Q 1.0 400 95 110);
    ("sparse"%string, mk 0.15 0.1 18 (1.05, 1.05, 1.15)%Q 1.0 400 100 140);
    ("maze"%string, mk 0.7 0.6 3 (0.9, 0.9, 0.8)%Q 1.0 400 90 100);
    ("open"%string, mk 0.08 0.05 30 (1.1, 1.1, 1.2)%Q 1.5 600 100 160);
    ("atrium"%string, mk 0.05 0.02 100 (1.05, 1.05, 1.15)%Q 6.0 2400 300 500);
    ("coliseum"%string, mk 0.0 0.0 200 (1.1, 1.1, 1.25)%Q 10.0 4000 400 800);
    ("courtyard"%string, mk 0.03 0.05 150 (1.2, 1.2, 1.3)%Q 8.0 3200 350 600);
    ("skyscraper_base"%string, mk 0.25 0.15 80 (0.95, 0.95, 1.05)%Q 5.0 2000 250 400);
    ("grand_hall"%string, mk 0.10 0.08 120 (1.0, 1.0, 1.1)%Q 7.0 2800 300 500);
    ("cathedral"%string, mk 0.15 0.10 180 (1.05, 1.05, 1.15)%Q 9.0 3600 450 700);
    ("warehouse"%string, mk 0.20 0.05 60 (0.95, 0.95, 0.9)%Q 4.0 1600 180 280) ].

(** Lookup in a dict kept as an association list. *)
Fixpoint dict_get {V : Type} (d : list (string * V)) (k : string) : option V :=
  match d with
  | [] => None
  | (k', v) :: d' => if String.eqb k k' then Some v else dict_get d' k
  end.

Definition get_zone_type (zone_x zone_z seed : Z) : string :=
  let hash_val := Z.land (zone_x * 73856093 + zone_z * 19349663 + seed * 83492791) 0x7fffffff in
  let zone_index := hash_val mod Z.of_nat (length ZONE_TYPES) in
  nth (Z.to_nat zone_index) (map fst ZONE_TYPES) ""%string.

Definition decay_chances : list (string * Q) :=
  [ ("normal"%string, 0.20%Q); ("dense"%string, 0.20%Q); ("sparse"%string, 0.20%Q);
    ("maze"%string, 0.20%Q); ("open"%string, 0.15%Q); ("atrium"%string, 0.05%Q);
    ("coliseum"%string, 0.02%Q); ("courtyard"%string, 0.05%Q);
    ("skyscraper_base"%string, 0.10%Q); ("grand_hall"%string, 0.08%Q);
    ("cathedral"%string, 0.05%Q); ("warehouse"%string, 0.12%Q) ].

(** The dict returned by [get_zone_properties]: a copy of the archetype with
    the keys ['decay_chance'] and ['zone_type'] added. *)
Record Props := {
  archetype : Archetype;
  decay_chance : Q;
  zone_type : string
}.

(** [ZONE_TYPES[zone_type]] raises [KeyError] on a missing key: [None]. *)
Definition get_zone_properties (zone_x zone_z seed : Z) : option Props :=
  let zone_type := get_zone_type zone_x zone_z seed in
  match dict_get ZONE_TYPES zone_type with
  | None => None
  | Some props =>
      Some {| archetype := props;
              decay_chance := default 0.10%Q (dict_get decay_chances zone_type);
              zone_type := zone_type |}
  end.

End ProceduralZone.

(** ** events.py *)

Module events.

Inductive EventType :=
| WALL_HIT | WALL_CRACKED | WALL_FRACTURED | WALL_BREAKING | WALL_DESTROYED
| PILLAR_HIT | PILLAR_DESTROYED
| DEBRIS_IMPACT | DEBRIS_SETTLED
| PLAYER_STEP | PLAYER_LAND
| FLICKER.

Global Instance EventType_eq_dec : EqDecision EventType.
Proof. solve_decision. Defined.

End events.

Export events.

(** A wall key is the sorted pair of its two grid points, a pillar key one
    grid point. *)
Definition Point : Type := Z * Z.
Definition WallKey : Type := Point * Point.
Definition PillarKey : Type := Point.

(** [Event(event_type, **data)]: the keyword arguments the engine passes;
    an attribute that was not passed reads as [None]. *)
Record Event := {
  type : EventType;
  wall_key : option WallKey;
  pillar_key : option PillarKey;
  position : option (Q * Q * Q);
  health : option float
}.

(** Handlers are callables of the listening subsystems; a handler is known
    here by an identifier, and calling it is recorded in [calls]. *)
Definition Handler : Type := nat.

Record EventBus := {
  _subscribers : EventType -> list Handler;
  _queue : list Event;
  _processing : bool;
  (** every [emit], in order *)
  emitted : list Event;
  (** every handler invocation, in order *)
  calls : list (Handler * Event)
}.

Definition EventBus_init : EventBus :=
  {| _subscribers := fun _ => []; _queue := []; _processing := false;
     emitted := []; calls := [] |}.

Definition subscribe (event_type : EventType) (handler : Handler) (bus : EventBus) : EventBus :=
  if bool_decide (handler ∈ _subscribers bus event_type) then bus
  else {| _subscribers := fun t => if bool_decide (t = event_type)
                                     then _subscribers bus t ++ [handler]
                                     else _subscribers bus t;
          _queue := _queue bus; _processing := _processing bus;
          emitted := emitted bus; calls := calls bus |}.

(** [emit]: every subscriber of the event's type is called with the event;
    a handler that raises is caught and reported, the others still run. *)
Definition emit (event : Event) (bus : EventBus) : EventBus :=
  {| _subscribers := _subscribers bus; _queue := _queue bus;
     _processing := _processing bus;
     emitted := emitted bus ++ [event];
     calls := calls bus ++ map (fun handler => (handler, event))
                               (_subscribers bus (type event)) |}.

(** ** debris.py

    A [Debris] particle is drawn from the global random generator (position,
    velocity, colour, lifetimes).  What is fixed by the code is where it was
    spawned and whether it starts settled ([velocity=None]); only that is
    kept. *)

Inductive DebrisSource :=
| impact_debris (k : WallKey)
| wall_collapse (k : WallKey)
| pillar_collapse (k : PillarKey)
| rubble_pile (k : WallKey).

Record Debris := {
  source : DebrisSource;
  is_settled : bool;
  active : bool
}.

Definition Debris_new (src : DebrisSource) (has_velocity : bool) : Debris :=
  {| source := src; is_settled := negb has_velocity; active := true |}.

(** ** world.py: state *)

Inductive WallState := INTACT | CRACKED | FRACTURED | BREAKING | DESTROYED.

Global Instance WallState_eq_dec : EqDecision WallState.
Proof. solve_decision. Defined.

(** A crack [(u, v, angle, length)]: [u] and [v] are the hit position when
    one was given, [None] when they are drawn at random like the angle and
    the length. *)
Record Crack := { crack_u : option Q; crack_v : option Q }.

Record World := {
  world_seed : Z;
  pillar_cache : gmap PillarKey bool;
  wall_cache : gmap WallKey bool;
  zone_cache : gmap Point ProceduralZone.Props;
  destroyed_walls : gset WallKey;
  destroyed_pillars : gset PillarKey;
  pre_damaged_walls : gmap WallKey Q;
  wall_states : gmap WallKey WallState;
  wall_health : gmap WallKey float;
  wall_cracks : gmap WallKey (list Crack);
  debris_pieces : list Debris;
  _spawned_rubble : gset WallKey
}.

Definition World_init (seed : Z) : World :=
  {| world_seed := seed;
     pillar_cache := ∅; wall_cache := ∅; zone_cache := ∅;
     destroyed_walls := ∅; destroyed_pillars := ∅;
     pre_damaged_walls := ∅;
     wall_states := ∅; wall_health := ∅; wall_cracks := ∅;
     debris_pieces := []; _spawned_rubble := ∅ |}.

(** The program state the world's methods act on: the [World] object, the
    global [event_bus], and the number of times [destroy_wall] and
    [destroy_pillar] called [play()] on the sound they were passed.  What
    the handlers of an event do (the engine's play sounds of their own) is
    not part of this state. *)
Record St := {
  world : World;
  event_bus : EventBus;
  sounds_played : nat
}.

Definition St_init (seed : Z) : St :=
  {| world := World_init seed; event_bus := EventBus_init; sounds_played := 0 |}.

(** A method is a state transformer that may raise ([None]). *)
Definition M (A : Type) : Type := St -> option (A * St).

Global Instance M_ret : MRet M := fun A a s => Some (a, s).
Global Instance M_bind : MBind M := fun A B f m s =>
  match m s with
  | Some (a, s') => f a s'
  | None => None
  end.

Definition raise {A : Type} : M A := fun _ => None.
Definition get_world : M World := fun s => Some (world s, s).
Definition update_world (f : World -> World) : M unit := fun s =>
  Some (tt, {| world := f (world s); event_bus := event_bus s;
               sounds_played := sounds_played s |}).
Definition event_bus_emit (event : Event) : M unit := fun s =>
  Some (tt, {| world := world s; event_bus := emit event (event_bus s);
               sounds_played := sounds_played s |}).
Definition play (destroy_sound : bool) : M unit := fun s =>
  Some (tt, {| world := world s; event_bus := event_bus s;
               sounds_played := if destroy_sound then S (sounds_played s)
                                else sounds_played s |}).
(** [d[k]] on a dict: [KeyError] when the key is missing. *)
Definition subscript {A : Type} (o : option A) : M A := fun s =>
  match o with
  | Some a => Some (a, s)
  | None => None
  end.

(** Field updates. *)
Definition set_pillar_cache (v : gmap PillarKey bool) (w : World) : World :=
  {| world_seed := world_seed w; pillar_cache := v; wall_cache := wall_cache w;
     zone_cache := zone_cache w; destroyed_walls := destroyed_walls w;
     destroyed_pillars := destroyed_pillars w;
     pre_damaged_walls := pre_damaged_walls w; wall_states := wall_states w;
     wall_health := wall_health w; wall_cracks := wall_cracks w;
     debris_pieces := debris_pieces w; _spawned_rubble := _spawned_rubble w |}.
Definition set_wall_cache (v : gmap WallKey bool) (w : World) : World :=
  {| world_seed := world_seed w; pillar_cache := pillar_cache w; wall_cache := v;
     zone_cache := zone_cache w; destroyed_walls := destroyed_walls w;
     destroyed_pillars := destroyed_pillars w;
     pre_damaged_walls := pre_damaged_walls w; wall_states := wall_states w;
     wall_health := wall_health w; wall_cracks := wall_cracks w;
     debris_pieces := debris_pieces w; _spawned_rubble := _spawned_rubble w |}.
Definition set_zone_cache (v : gmap Point ProceduralZone.Props) (w : World) : World :=
  {| world_seed := world_seed w; pillar_cache := pillar_cache w;
     wall_cache := wall_cache w; zone_cache := v;
     destroyed_walls := destroyed_walls w;
     destroyed_pillars := destroyed_pillars w;
     pre_damaged_walls := pre_damaged_walls w; wall_states := wall_states w;
     wall_health := wall_health w; wall_cracks := wall_cracks w;
     debris_pieces := debris_pieces w; _spawned_rubble := _spawned_rubble w |}.
Definition set_destroyed_walls (v : gset WallKey) (w : World) : World :=
  {| world_seed := world_seed w; pillar_cache := pillar_cache w;
     wall_cache := wall_cache w; zone_cache := zone_cache w;
     destroyed_walls := v; destroyed_pillars := destroyed_pillars w;
     pre_damaged_walls := pre_damaged_walls w; wall_states := wall_states w;
     wall_health := wall_health w; wall_cracks := wall_cracks w;
     debris_pieces := debris_pieces w; _spawned_rubble := _spawned_rubble w |}.
Definition set_destroyed_pillars (v : gset PillarKey) (w : World) : World :=
  {| world_seed := world_seed w; pillar_cache := pillar_cache w;
     wall_cache := wall_cache w; zone_cache := zone_cache w;
     destroyed_walls := destroyed_walls w; destroyed_pillars := v;
     pre_damaged_walls := pre_damaged_walls w; wall_states := wall_states w;
     wall_health := wall_health w; wall_cracks := wall_cracks w;
     debris_pieces := debris_pieces w; _spawned_rubble := _spawned_rubble w |}.
Definition set_pre_damaged_walls (v : gmap WallKey Q) (w : World) : World :=
  {| world_seed := world_seed w; pillar_cache := pillar_cache w;
     wall_cache := wall_cache w; zone_cache := zone_cache w;
     destroyed_walls := destroyed_walls w;
     destroyed_pillars := destroyed_pillars w;
     pre_damaged_walls := v; wall_states := wall_states w;
     wall_health := wall_health w; wall_cracks := wall_cracks w;
     debris_pieces := debris_pieces w; _spawned_rubble := _spawned_rubble w |}.
Definition set_wall_states (v : gmap WallKey WallState) (w : World) : World :=
  {| world_seed := world_seed w; pillar_cache := pillar_cache w;
     wall_cache := wall_cache w; zone_cache := zone_cache w;
     destroyed_walls := destroyed_walls w;
     destroyed_pillars := destroyed_pillars w;
     pre_damaged_walls := pre_damaged_walls w; wall_states := v;
     wall_health := wall_health w; wall_cracks := wall_cracks w;
     debris_pieces := debris_pieces w; _spawned_rubble := _spawned_rubble w |}.
Definition set_wall_health (v : gmap WallKey float) (w : World) : World :=
  {| world_seed := world_seed w; pillar_cache := pillar_cache w;
     wall_cache := wall_cache w; zone_cache := zone_cache w;
     destroyed_walls := destroyed_walls w;
     destroyed_pillars := destroyed_pillars w;
     pre_damaged_walls := pre_damaged_walls w; wall_states := wall_states w;
     wall_health := v; wall_cracks := wall_cracks w;
     debris_pieces := debris_pieces w; _spawned_rubble := _spawned_rubble w |}.
Definition set_wall_cracks (v : gmap WallKey (list Crack)) (w : World) : World :=
  {| world_seed := world_seed w; pillar_cache := pillar_cache w;
     wall_cache := wall_cache w; zone_cache := zone_cache w;
     destroyed_walls := destroyed_walls w;
     destroyed_pillars := destroyed_pillars w;
     pre_damaged_walls := pre_damaged_walls w; wall_states := wall_states w;
     wall_health := wall_health w; wall_cracks := v;
     debris_pieces := debris_pieces w; _spawned_rubble := _spawned_rubble w |}.
Definition set_debris_pieces (v : list Debris) (w : World) : World :=
  {| world_seed := world_seed w; pillar_cache := pillar_cache w;
     wall_cache := wall_cache w; zone_cache := zone_cache w;
     destroyed_walls := destroyed_walls w;
     destroyed_pillars := destroyed_pillars w;
     pre_damaged_walls := pre_damaged_walls w; wall_states := wall_states w;
     wall_health := wall_health w; wall_cracks := wall_cracks w;
     debris_pieces := v; _spawned_rubble := _spawned_rubble w |}.

(** ** world.py: progressive wall damage and destruction *)

Section world_damage.
Import config.

Definition is_wall_destroyed (w : World) (wall_key : WallKey) : bool :=
  bool_decide (wall_key ∈ destroyed_walls w).

Definition is_pillar_destroyed (w : World) (pillar_key : PillarKey) : bool :=
  bool_decide (pillar_key ∈ destroyed_pillars w).

Definition get_wall_damage (w : World) (wall_key : WallKey) : Q :=
  default 1.0%Q (pre_damaged_walls w !! wall_key).

Definition get_wall_state (w : World) (wall_key : WallKey) : WallState :=
  if bool_decide (wall_key ∈ destroyed_walls w) then DESTROYED
  else default INTACT (wall_states w !! wall_key).

Definition get_wall_health (w : World) (wall_key : WallKey) : float :=
  if bool_decide (wall_key ∈ destroyed_walls w) then 0.0%float
  else default 1.0%float (wall_health w !! wall_key).

Definition get_wall_cracks (w : World) (wall_key : WallKey) : list Crack :=
  default [] (wall_cracks w !! wall_key).

Definition _get_wall_center (wall_key : WallKey) : Q * Q * Q :=
  let '((x1, z1), (x2, z2)) := wall_key in
  let h := get_scaled_wall_height in
  let floor_y := get_scaled_floor_y in
  ((inject_Z (x1 + x2) / 2)%Q, (inject_Z (floor_y + h) / 2)%Q, (inject_Z (z1 + z2) / 2)%Q).

Definition _add_crack (wall_key : WallKey) (hit_u hit_v : option Q) : M unit :=
  update_world (fun w =>
    let cracks := default [] (wall_cracks w !! wall_key) in
    set_wall_cracks
      (<[wall_key := cracks ++ [ {| crack_u := hit_u; crack_v := hit_v |} ]]> (wall_cracks w)) w).

(** [for _ in range(count): self.debris_pieces.append(Debris(...))] *)
Fixpoint spawn_loop (count : nat) (d : Debris) (pieces : list Debris) : list Debris :=
  match count with
  | O => pieces
  | S count' => spawn_loop count' d (pieces ++ [d])
  end.

Definition _spawn_impact_debris (wall_key : WallKey) (count : nat) : M unit :=
  update_world (fun w =>
    set_debris_pieces
      (spawn_loop count (Debris_new (impact_debris wall_key) true) (debris_pieces w)) w).

(** [max(250, int(base * (1.0 / (1.0 + n / 20))))] with [base = 1200]. *)
Definition num_particles (n : nat) : nat :=
  Z.to_nat (Z.max 250 (Qfloor (1200 * (1.0 / (1.0 + inject_Z (Z.of_nat n) / 20)))%Q)).

Definition _destroy_wall_internal (wall_key : WallKey) : M unit :=
  update_world (fun w =>
    set_wall_health (<[wall_key := 0.0%float]> (wall_health w))
      (set_wall_states (<[wall_key := DESTROYED]> (wall_states w))
        (set_destroyed_walls ({[wall_key]} ∪ destroyed_walls w) w)));;
  update_world (fun w =>
    set_debris_pieces
      (spawn_loop (num_particles (size (destroyed_walls w)))
                  (Debris_new (wall_collapse wall_key) true) (debris_pieces w)) w).

Definition state_of_health (new_health : float) : WallState :=
  if (new_health <=? 0)%float then DESTROYED
  else if (new_health <=? 0.25)%float then FRACTURED
  else if (new_health <=? 0.6)%float then CRACKED
  else INTACT.

Definition wall_event (t : EventType) (wall_key : WallKey) (position : Q * Q * Q)
    (health : option float) : Event :=
  {| type := t; wall_key := Some wall_key; pillar_key := None;
     position := Some position; health := health |}.

(** [max(0.0, old_health - damage)] is the binary64 difference, rounded as
    the program rounds it. *)
Definition hit_wall (wall_key : WallKey) (damage : float) (hit_uv : option (Q * Q)) : M bool :=
  w ← get_world;
  if bool_decide (wall_key ∈ destroyed_walls w) then mret false else
  (* Initialize if first hit *)
  (match wall_health w !! wall_key with
   | None =>
       update_world (fun w => set_wall_health (<[wall_key := 1.0%float]> (wall_health w)) w);;
       update_world (fun w => set_wall_states (<[wall_key := INTACT]> (wall_states w)) w)
   | Some _ => mret tt
   end);;
  w ← get_world;
  old_state ← subscript (wall_states w !! wall_key);
  old_health ← subscript (wall_health w !! wall_key);
  (* Apply damage *)
  update_world (fun w =>
    set_wall_health (<[wall_key := fmax 0.0 (old_health - damage)]> (wall_health w)) w);;
  w ← get_world;
  new_health ← subscript (wall_health w !! wall_key);
  (* Determine new state based on health *)
  let new_state := state_of_health new_health in
  update_world (fun w => set_wall_states (<[wall_key := new_state]> (wall_states w)) w);;
  let position := _get_wall_center wall_key in
  (* Add cracks on damage *)
  (if bool_decide (new_state = CRACKED ∨ new_state = FRACTURED) then
     let hit_u := match hit_uv with Some uv => Some (fst uv) | None => None end in
     let hit_v := match hit_uv with Some uv => Some (snd uv) | None => None end in
     _add_crack wall_key hit_u hit_v;;
     if bool_decide (new_state = FRACTURED) then
       _add_crack wall_key None None;;
       _add_crack wall_key None None
     else mret tt
   else mret tt);;
  (* Emit events on state transitions *)
  if bool_decide (new_state ≠ old_state) then
    if bool_decide (new_state = CRACKED) then
      _spawn_impact_debris wall_key 30;;
      event_bus_emit (wall_event WALL_CRACKED wall_key position (Some new_health));;
      mret false
    else if bool_decide (new_state = FRACTURED) then
      _spawn_impact_debris wall_key 60;;
      event_bus_emit (wall_event WALL_FRACTURED wall_key position (Some new_health));;
      mret false
    else if bool_decide (new_state = DESTROYED) then
      _destroy_wall_internal wall_key;;
      event_bus_emit (wall_event WALL_DESTROYED wall_key position None);;
      mret true
    else mret false
  else if bool_decide (old_state ≠ INTACT) then
    (* Hit but didn't change state *)
    _spawn_impact_debris wall_key 20;;
    event_bus_emit (wall_event WALL_HIT wall_key position (Some new_health));;
    mret false
  else mret false.

(** [destroy_sound] is an optional sound object; [true] when one is passed. *)
Definition destroy_wall (wall_key : WallKey) (destroy_sound : bool) : M unit :=
  w ← get_world;
  if bool_decide (wall_key ∈ destroyed_walls w) then mret tt else
  play destroy_sound;;
  let position := _get_wall_center wall_key in
  _destroy_wall_internal wall_key;;
  event_bus_emit (wall_event WALL_DESTROYED wall_key position None).

Definition destroy_pillar (pillar_key : PillarKey) (destroy_sound : bool) : M unit :=
  w ← get_world;
  if bool_decide (pillar_key ∈ destroyed_pillars w) then mret tt else
  update_world (fun w => set_destroyed_pillars ({[pillar_key]} ∪ destroyed_pillars w) w);;
  play destroy_sound;;
  let '(pillar_x, pillar_z) := pillar_key in
  let s := PILLAR_SIZE in
  let h := get_scaled_wall_height in
  let floor_y := get_scaled_floor_y in
  let '(min_x, max_x) := (pillar_x, pillar_x + s) in
  let '(min_z, max_z) := (pillar_z, pillar_z + s) in
  let '(min_y, max_y) := (floor_y, h) in
  let position := ((inject_Z (min_x + max_x) / 2)%Q,
                   (inject_Z (min_y + max_y) / 2)%Q,
                   (inject_Z (min_z + max_z) / 2)%Q) in
  update_world (fun w =>
    set_debris_pieces
      (spawn_loop (num_particles (size (destroyed_pillars w)))
                  (Debris_new (pillar_collapse pillar_key) true) (debris_pieces w)) w);;
  event_bus_emit {| type := PILLAR_DESTROYED; wall_key := None;
                    pillar_key := Some pillar_key; position := Some position;
                    health := None |}.

End world_damage.

(** ** world.py and ceiling_heights.py: procedural queries *)

(** [tuple(sorted([p, q]))] for two points, compared as Python compares
    tuples. *)
Definition point_le (p q : Point) : bool :=
  (fst p <? fst q) || ((fst p =? fst q) && (snd p <=? snd q)).

Definition sorted_key (p q : Point) : WallKey :=
  if point_le p q then (p, q) else (q, p).

Section world_queries.
Context `{PyRuntime}.
Import config.

Definition get_zone_at (x z : Q) : Point :=
  (floordiv x ZONE_SIZE, floordiv z ZONE_SIZE).

Definition get_zone_properties (zone_x zone_z : Z) : M ProceduralZone.Props :=
  let key := (zone_x, zone_z) in
  w ← get_world;
  (match zone_cache w !! key with
   | None =>
       props ← subscript (ProceduralZone.get_zone_properties zone_x zone_z (world_seed w));
       update_world (fun w => set_zone_cache (<[key := props]> (zone_cache w)) w)
   | Some _ => mret tt
   end);;
  w ← get_world;
  subscript (zone_cache w !! key).

(** ceiling_heights.py *)
Definition get_room_size_at_position (x z : Q) : M Z :=
  let '(zone_x, zone_z) := get_zone_at x z in
  props ← get_zone_properties zone_x zone_z;
  mret (ProceduralZone.room_size (ProceduralZone.archetype props)).

Definition probability_map : list (string * Q) :=
  [ ("sparse"%string, 0.10%Q); ("normal"%string, 0.30%Q); ("dense"%string, 0.60%Q) ].

Definition cache_pillar (key : PillarKey) (b : bool) : M bool :=
  update_world (fun w => set_pillar_cache (<[key := b]> (pillar_cache w)) w);;
  mret b.

Definition has_pillar_at (px pz : Z) : M bool :=
  let key := (px, pz) in
  w ← get_world;
  match pillar_cache w !! key with
  | Some b => mret b
  | None =>
      if String.eqb PILLAR_MODE "none" then cache_pillar key false else
      let offset := PILLAR_SPACING / 2 in
      let is_on_pillar_grid :=
        (px mod PILLAR_SPACING =? offset) && (pz mod PILLAR_SPACING =? offset) in
      if negb is_on_pillar_grid then cache_pillar key false else
      if String.eqb PILLAR_MODE "all" then cache_pillar key true else
      (* Deterministic random based on position *)
      let seed := hash3 px pz (world_seed w) mod 100000 in
      let probability := default 0.0%Q (ProceduralZone.dict_get probability_map PILLAR_MODE) in
      let has_pillar := Qltb (Random seed 0) probability in
      cache_pillar key has_pillar
  end.

Definition cache_wall (key : WallKey) (b : bool) : M bool :=
  update_world (fun w => set_wall_cache (<[key := b]> (wall_cache w)) w);;
  mret b.

Definition tolerance : Q := 1.0.

(** [abs(c % room_size) < tolerance or abs(c % room_size - room_size) < tolerance] *)
Definition on_grid (c room_size : Z) : bool :=
  Qltb (inject_Z (Z.abs (c mod room_size))) tolerance
  || Qltb (inject_Z (Z.abs (c mod room_size - room_size))) tolerance.

(** [abs(abs(b - a) - room_size) > tolerance] *)
Definition span_mismatch (a b room_size : Z) : bool :=
  Qltb tolerance (inject_Z (Z.abs (Z.abs (b - a) - room_size))).

(** The decay roll made the first time a key is seen. *)
Definition roll_decay (key : WallKey) (x1 z1 x2 z2 : Z) : M unit :=
  w ← get_world;
  match pre_damaged_walls w !! key with
  | Some _ => mret tt
  | None =>
      let '(zone_x, zone_z) := get_zone_at (inject_Z (x1 + x2) / 2) (inject_Z (z1 + z2) / 2) in
      props ← get_zone_properties zone_x zone_z;
      w ← get_world;
      let decay_seed := x1 * 7919 + z1 * 6577 + x2 * 4993 + z2 * 3571 + world_seed w * 9973 in
      if Qltb (Random decay_seed 0) (ProceduralZone.decay_chance props) then
        let damage := (0.0 + (0.5 - 0.0) * Random decay_seed 1)%Q in
        update_world (fun w => set_pre_damaged_walls (<[key := damage]> (pre_damaged_walls w)) w);;
        (* Fully destroyed *)
        if Qltb damage 0.2 then
          update_world (fun w => set_destroyed_walls ({[key]} ∪ destroyed_walls w) w)
        else mret tt
      else mret tt
  end.

Definition has_wall_between (x1 z1 x2 z2 : Z) : M bool :=
  let key := sorted_key (x1, z1) (x2, z2) in
  w ← get_world;
  match wall_cache w !! key with
  | Some b => mret b
  | None =>
      let center_x := (inject_Z (x1 + x2) / 2)%Q in
      let center_z := (inject_Z (z1 + z2) / 2)%Q in
      room_size ← get_room_size_at_position center_x center_z;
      let is_horizontal := z1 =? z2 in
      let is_vertical := x1 =? x2 in
      if negb (is_horizontal || is_vertical) then cache_wall key false else
      (* Check if wall aligns with this zone's grid *)
      if (if is_horizontal
          then negb (on_grid z1 room_size) || span_mismatch x1 x2 room_size
          else negb (on_grid x1 room_size) || span_mismatch z1 z2 room_size)
      then cache_wall key false else
      (* Check for pre-existing damage *)
      roll_decay key x1 z1 x2 z2;;
      let has_wall := true in
      cache_wall key has_wall
  end.

Definition get_doorway_type (seed : Z) (x1 z1 x2 z2 : Z) : option string :=
  let is_horizontal := z1 =? z2 in
  let door_seed :=
    if is_horizontal
    then z1 * 3571 + ((x1 + x2) / 2) * 2897 + seed * 9973
    else x1 * 3571 + ((z1 + z2) / 2) * 2897 + seed * 9973 in
  let roll := Random door_seed 0 in
  if Qltb roll 0.3 then Some "hallway"%string
  else if Qltb roll 0.5 then Some "doorway"%string
  else None.

(** [self.get_doorway_type(...)]: reads [self.world_seed]. *)
Definition world_get_doorway_type (x1 z1 x2 z2 : Z) : M (option string) :=
  w ← get_world;
  mret (get_doorway_type (world_seed w) x1 z1 x2 z2).

Definition opening_width_of (opening_type : option string) : Z :=
  match opening_type with
  | Some t => if String.eqb t "hallway" then HALLWAY_WIDTH
              else if String.eqb t "doorway" then 60
              else 0
  | None => 0
  end.

End world_queries.

(** ** Binary64 helpers *)

(** [float(n)] for an [int]: the nearest binary64 ([OverflowError] for an
    integer beyond the binary64 range is not modelled: it gives infinity). *)
Definition float_of_Z (n : Z) : float := SF2Prim (binary_normalize prec emax n 0 false).

(** The exact value of a finite float. *)
Definition float_value (f : float) : Q :=
  match Prim2SF f with
  | S754_finite s m e =>
      ((if s then -1 else 1) * inject_Z (Zpos m)
       * (if 0 <=? e then inject_Z (2 ^ e) else / inject_Z (2 ^ (- e))))%Q
  | _ => 0%Q
  end.

(** [v ** 2]: [OverflowError] when a finite [v] has an infinite square. *)
Definition pow2 (v : float) : M float :=
  let r := (v * v)%float in
  if is_finite v && is_infinity r then raise else mret r.

(** [range(start, stop, step)] for a positive step. *)
Definition py_range (start stop step : Z) : list Z :=
  map (fun i => start + step * Z.of_nat i) (seq 0 (Z.to_nat ((stop - start + step - 1) / step))).

(** A loop whose body may [return True]. *)
Fixpoint any_M {A : Type} (body : A -> M bool) (l : list A) : M bool :=
  match l with
  | [] => mret false
  | a :: l' => b ← body a; if b : bool then mret true else any_M body l'
  end.

(** ** world.py: check_collision *)

Inductive Flow := fall_through | continue | return_True.

Section world_collision.
Context `{PyRuntime}.
Import config.

Definition player_radius_w : float := 15.0.

(** The test of one wall of a cell: [along] is the coordinate along the
    wall, [across] the one across it. *)
Definition wall_blocks (opening_type : option string) (wall_start : Z) (wall_across : Z)
    (along across : float) : bool :=
  let half_thick := (float_of_Z WALL_THICKNESS / 2)%float in
  let player_radius := player_radius_w in
  let wall_end := wall_start + PILLAR_SPACING in
  let opening_width := opening_width_of opening_type in
  if 0 <? opening_width then
    let opening_start :=
      (float_of_Z wall_start + float_of_Z (PILLAR_SPACING - opening_width) / 2)%float in
    let opening_end := (opening_start + float_of_Z opening_width)%float in
    (PrimFloat.abs (across - float_of_Z wall_across) <? half_thick + player_radius)%float
    && (((float_of_Z wall_start <=? along)%float
         && (along <=? opening_start - player_radius)%float)
        || ((opening_end + player_radius <=? along)%float
            && (along <=? float_of_Z wall_end)%float))
  else
    ((float_of_Z wall_start - player_radius <=? along)%float
     && (along <=? float_of_Z wall_end + player_radius)%float)
    && (PrimFloat.abs (across - float_of_Z wall_across) <? half_thick + player_radius)%float.

Definition check_wall (x1 z1 x2 z2 : Z) (wall_start wall_across : Z)
    (along across : float) : M Flow :=
  hw ← has_wall_between x1 z1 x2 z2;
  if hw : bool then
    let wall_key := sorted_key (x1, z1) (x2, z2) in
    w ← get_world;
    if bool_decide (wall_key ∈ destroyed_walls w) then mret continue else
    opening_type ← world_get_doorway_type x1 z1 x2 z2;
    if wall_blocks opening_type wall_start wall_across along across
    then mret return_True else mret fall_through
  else mret fall_through.

Definition check_pillar (px_grid pz_grid : Z) (x z : float) : M bool :=
  let player_radius := player_radius_w in
  let offset := PILLAR_SPACING / 2 in
  let pillar_x := px_grid + offset in
  let pillar_z := pz_grid + offset in
  let pillar_key := (pillar_x, pillar_z) in
  hp ← has_pillar_at pillar_x pillar_z;
  w ← get_world;
  if (hp : bool) && negb (bool_decide (pillar_key ∈ destroyed_pillars w)) then
    let pillar_min_x := float_of_Z pillar_x in
    let pillar_max_x := float_of_Z (pillar_x + PILLAR_SIZE) in
    let pillar_min_z := float_of_Z pillar_z in
    let pillar_max_z := float_of_Z (pillar_z + PILLAR_SIZE) in
    (* Box vs circle collision *)
    let closest_x := fmax pillar_min_x (fmin x pillar_max_x) in
    let closest_z := fmax pillar_min_z (fmin z pillar_max_z) in
    let dist_x := (x - closest_x)%float in
    let dist_z := (z - closest_z)%float in
    let dist_sq := (dist_x * dist_x + dist_z * dist_z)%float in
    mret (dist_sq <? player_radius * player_radius)%float
  else mret false.

(** The body of the two nested loops for one grid cell; [true] when the
    body executes [return True]. *)
Definition check_cell (x z : float) (px_grid pz_grid : Z) : M bool :=
  (* Check horizontal wall *)
  f ← check_wall px_grid pz_grid (px_grid + PILLAR_SPACING) pz_grid px_grid pz_grid x z;
  match f with
  | return_True => mret true
  | continue => mret false
  | fall_through =>
      (* Check vertical wall *)
      f ← check_wall px_grid pz_grid px_grid (pz_grid + PILLAR_SPACING) pz_grid px_grid z x;
      match f with
      | return_True => mret true
      | continue => mret false
      | fall_through => check_pillar px_grid pz_grid x z
      end
  end.

(** [int((x + d) // PILLAR_SPACING) * PILLAR_SPACING] *)
Definition grid_floor (x : float) : Z :=
  floordiv (float_value x) PILLAR_SPACING * PILLAR_SPACING.

Definition check_collision (x z : float) : M bool :=
  if negb (is_finite x) || negb (is_finite z) then mret true else
  (* MEGA-ARCHITECTURE: Use larger check range for mega-scale zones *)
  room_size ← get_room_size_at_position (float_value x) (float_value z);
  let check_range := float_of_Z (room_size * 2) in
  let min_grid_x := grid_floor (x - check_range) in
  let max_grid_x := grid_floor (x + check_range) in
  let min_grid_z := grid_floor (z - check_range) in
  let max_grid_z := grid_floor (z + check_range) in
  any_M (fun px_grid =>
    any_M (fun pz_grid => check_cell x z px_grid pz_grid)
          (py_range min_grid_z (max_grid_z + PILLAR_SPACING) PILLAR_SPACING))
    (py_range min_grid_x (max_grid_x + PILLAR_SPACING) PILLAR_SPACING).

End world_collision.

(** ** collision.py

    Segment coordinates are binary64 throughout: where Python keeps an [int]
    coordinate in a segment tuple it is converted on first use, which gives
    the same value as converting it when the tuple is built (exactly so for
    coordinates below 2^53 in magnitude). *)

Definition Segment : Type := float * float * float * float.

Record CollisionSystem := {
  player_radius : float;
  skin_width : float;
  max_iterations : Z
}.

Definition CollisionSystem_init (player_radius skin_width : float) : CollisionSystem :=
  {| player_radius := player_radius; skin_width := skin_width; max_iterations := 4 |}.

Section collision.
Context `{PyRuntime}.
Import config.
Variable self : CollisionSystem.

(** The segments of one wall: [mk along across] builds a point from the
    coordinate along the wall and the one across it. *)
Definition wall_segments (opening_type : option string) (wall_start wall_across : Z)
    (mk : float -> float -> float * float) : list Segment :=
  let half_thick := (float_of_Z WALL_THICKNESS / 2)%float in
  let wall_end := wall_start + PILLAR_SPACING in
  let opening_width := opening_width_of opening_type in
  let lo := (float_of_Z wall_across - half_thick)%float in
  let hi := (float_of_Z wall_across + half_thick)%float in
  let seg (p q : float * float) : Segment := (fst p, snd p, fst q, snd q) in
  if 0 <? opening_width then
    (* Wall with opening - create segments + doorway edges *)
    let opening_start :=
      (float_of_Z wall_start + float_of_Z (PILLAR_SPACING - opening_width) / 2)%float in
    let opening_end := (opening_start + float_of_Z opening_width)%float in
    [ seg (mk (float_of_Z wall_start) lo) (mk opening_start lo);
      seg (mk (float_of_Z wall_start) hi) (mk opening_start hi);
      seg (mk opening_end lo) (mk (float_of_Z wall_end) lo);
      seg (mk opening_end hi) (mk (float_of_Z wall_end) hi);
      seg (mk opening_start lo) (mk opening_start hi);
      seg (mk opening_end lo) (mk opening_end hi) ]
  else
    (* Solid wall *)
    [ seg (mk (float_of_Z wall_start) lo) (mk (float_of_Z wall_end) lo);
      seg (mk (float_of_Z wall_start) hi) (mk (float_of_Z wall_end) hi) ].

Definition cell_wall_segments (x1 z1 x2 z2 : Z) (wall_start wall_across : Z)
    (mk : float -> float -> float * float) : M (list Segment) :=
  hw ← has_wall_between x1 z1 x2 z2;
  if hw : bool then
    let wall_key := sorted_key (x1, z1) (x2, z2) in
    w ← get_world;
    if negb (bool_decide (wall_key ∈ destroyed_walls w)) then
      opening_type ← world_get_doorway_type x1 z1 x2 z2;
      mret (wall_segments opening_type wall_start wall_across mk)
    else mret []
  else mret [].

Definition cell_pillar_segments (px pz : Z) : M (list Segment) :=
  let offset := PILLAR_SPACING / 2 in
  let pillar_x := px + offset in
  let pillar_z := pz + offset in
  hp ← has_pillar_at pillar_x pillar_z;
  if hp : bool then
    let pillar_key := (pillar_x, pillar_z) in
    w ← get_world;
    if negb (bool_decide (pillar_key ∈ destroyed_pillars w)) then
      let s := PILLAR_SIZE in
      let x0 := float_of_Z pillar_x in
      let x1 := float_of_Z (pillar_x + s) in
      let z0 := float_of_Z pillar_z in
      let z1 := float_of_Z (pillar_z + s) in
      (* Four sides of pillar *)
      mret [ (x0, z0, x1, z0); (x1, z0, x1, z1); (x1, z1, x0, z1); (x0, z1, x0, z0) ]
    else mret []
  else mret [].

(** A loop that appends to [segments]. *)
Fixpoint collect_M {A : Type} (body : A -> M (list Segment)) (l : list A) : M (list Segment) :=
  match l with
  | [] => mret []
  | a :: l' => s1 ← body a; s2 ← collect_M body l'; mret ((s1 : list Segment) ++ s2)
  end.

Definition cell_segments (px pz : Z) : M (list Segment) :=
  (* Horizontal walls *)
  s1 ← cell_wall_segments px pz (px + PILLAR_SPACING) pz px pz (fun along across => (along, across));
  (* Vertical walls (same logic, rotated) *)
  s2 ← cell_wall_segments px pz px (pz + PILLAR_SPACING) pz px (fun along across => (across, along));
  (* Pillars (check if they exist) *)
  s3 ← cell_pillar_segments px pz;
  mret ((s1 : list Segment) ++ s2 ++ s3).

(** [_get_nearby_segments]: on a position that is not finite the first
    [int(... // PILLAR_SPACING)] raises ([ValueError] for the NaN that
    floor division gives), before anything is queried. *)
Definition _get_nearby_segments (x z : float) : M (list Segment) :=
  if negb (is_finite x) || negb (is_finite z) then raise else
  let check_range := float_of_Z (PILLAR_SPACING * 2) in
  let min_grid_x := grid_floor (x - check_range) in
  let max_grid_x := grid_floor (x + check_range) in
  let min_grid_z := grid_floor (z - check_range) in
  let max_grid_z := grid_floor (z + check_range) in
  collect_M (fun px =>
    collect_M (fun pz => cell_segments px pz)
              (py_range min_grid_z (max_grid_z + PILLAR_SPACING) PILLAR_SPACING))
    (py_range min_grid_x (max_grid_x + PILLAR_SPACING) PILLAR_SPACING).

(** The closest point of a segment of positive length to [(x, z)], with
    the segment's length and unit direction. *)
Record Closest := {
  seg_len : float;
  seg_nx : float;
  seg_nz : float;
  to_x : float;
  to_z : float;
  closest_x : float;
  closest_z : float
}.

Definition closest_point (x z : float) (segment : Segment) : Closest :=
  let '(seg_x1, seg_z1, seg_x2, seg_z2) := segment in
  (* Segment vector *)
  let seg_dx := (seg_x2 - seg_x1)%float in
  let seg_dz := (seg_z2 - seg_z1)%float in
  let seg_len := PrimFloat.sqrt (seg_dx * seg_dx + seg_dz * seg_dz)%float in
  (* Normalize *)
  let seg_nx := (seg_dx / seg_len)%float in
  let seg_nz := (seg_dz / seg_len)%float in
  (* Project point onto line *)
  let to_x := (x - seg_x1)%float in
  let to_z := (z - seg_z1)%float in
  let proj := (to_x * seg_nx + to_z * seg_nz)%float in
  let proj := fmax 0 (fmin seg_len proj) in
  {| seg_len := seg_len; seg_nx := seg_nx; seg_nz := seg_nz;
     to_x := to_x; to_z := to_z;
     closest_x := (seg_x1 + seg_nx * proj)%float;
     closest_z := (seg_z1 + seg_nz * proj)%float |}.

Definition _distance_to_segment (x z : float) (segment : Segment) : M float :=
  let c := closest_point x z segment in
  if (seg_len c <? 0.001)%float then mret infinity else
  dx2 ← pow2 (x - closest_x c);
  dz2 ← pow2 (z - closest_z c);
  mret (PrimFloat.sqrt (dx2 + dz2)).

Fixpoint any_close (x z : float) (threshold : float) (segments : list Segment) : M bool :=
  match segments with
  | [] => mret false
  | segment :: rest =>
      dist ← _distance_to_segment x z segment;
      if (dist <? threshold)%float then mret true else any_close x z threshold rest
  end.

Definition _is_penetrating (x z : float) : M bool :=
  segments ← _get_nearby_segments x z;
  let threshold := (player_radius self + skin_width self)%float in
  any_close x z threshold segments.

Definition _resolve_segment_collision (x z : float) (segment : Segment)
    : option (float * float) :=
  let c := closest_point x z segment in
  if (seg_len c <? 0.001)%float then None else
  (* Normal (perpendicular) *)
  let normal_x := (- seg_nz c)%float in
  let normal_z := seg_nx c in
  (* Vector from segment to point *)
  let diff_x := (x - closest_x c)%float in
  let diff_z := (z - closest_z c)%float in
  let dist := PrimFloat.sqrt (diff_x * diff_x + diff_z * diff_z)%float in
  (* Check if penetrating *)
  let threshold := (player_radius self + skin_width self)%float in
  if (threshold <=? dist)%float then None else
  (* Penetrating - push out *)
  let '(push_x, push_z) :=
    if (0.001 <? dist)%float then
      ((diff_x / dist) * (threshold - dist), (diff_z / dist) * (threshold - dist))%float
    else
      let side := (to_x c * normal_x + to_z c * normal_z)%float in
      if (side <? 0)%float
      then ((- normal_x) * threshold, (- normal_z) * threshold)%float
      else (normal_x * threshold, normal_z * threshold)%float in
  Some (x + push_x, z + push_z)%float.

(** One iteration of the loop of [_depenetrate]: the accumulated push and
    the push count after [segment]. *)
Definition depenetrate_step (x z : float) (acc : float * float * Z) (segment : Segment)
    : float * float * Z :=
  let '(push_x, push_z, push_count) := acc in
  let c := closest_point x z segment in
  if (seg_len c <? 0.001)%float then acc else
  let normal_x := (- seg_nz c)%float in
  let normal_z := seg_nx c in
  let dist_x := (x - closest_x c)%float in
  let dist_z := (z - closest_z c)%float in
  let dist := PrimFloat.sqrt (dist_x * dist_x + dist_z * dist_z)%float in
  if (dist <? player_radius self)%float then
    let penetration := (player_radius self - dist)%float in
    if (0.001 <? dist)%float then
      ((push_x + (dist_x / dist) * penetration)%float,
       (push_z + (dist_z / dist) * penetration)%float, push_count + 1)
    else
      let side := (to_x c * normal_x + to_z c * normal_z)%float in
      let '(normal_x, normal_z) :=
        if (side <? 0)%float then (- normal_x, - normal_z)%float else (normal_x, normal_z) in
      ((push_x + normal_x * penetration)%float,
       (push_z + normal_z * penetration)%float, push_count + 1)
  else acc.

Definition _depenetrate (x z : float) : M (float * float) :=
  segments ← _get_nearby_segments x z;
  let '(push_x, push_z, push_count) :=
    fold_left (depenetrate_step x z) segments (float_of_Z 0, float_of_Z 0, 0) in
  if 0 <? push_count then mret (x + push_x, z + push_z)%float
  else mret (x, z).

(** The inner [for segment in segments] loop of [resolve_collision]. *)
Definition resolve_step (acc : float * float * bool * bool) (segment : Segment)
    : float * float * bool * bool :=
  let '(final_x, final_z, collided, resolved) := acc in
  match _resolve_segment_collision final_x final_z segment with
  | Some (rx, rz) => (rx, rz, true, true)
  | None => acc
  end.

(** [for iteration in range(3)], with its [break]. *)
Fixpoint resolve_passes (passes : nat) (final_x final_z : float) (collided : bool)
    : M (float * float * bool) :=
  match passes with
  | O => mret (final_x, final_z, collided)
  | S passes' =>
      (* Depenetrate first if stuck *)
      pen ← _is_penetrating final_x final_z;
      '(final_x, final_z, collided) ←
        (if pen : bool then
           p ← _depenetrate final_x final_z;
           mret (fst p, snd p, true)
         else mret (final_x, final_z, collided));
      (* Get all nearby segments *)
      segments ← _get_nearby_segments final_x final_z;
      (* Check for any remaining collisions and resolve *)
      let '(final_x, final_z, collided, resolved) :=
        fold_left resolve_step segments (final_x, final_z, collided, false) in
      (* If no collision found, we're done *)
      if negb resolved then mret (final_x, final_z, collided)
      else resolve_passes passes' final_x final_z collided
  end.

Definition resolve_collision (from_pos to_pos : float * float) : M (float * float * bool) :=
  let '(x1, z1) := from_pos in
  let '(x2, z2) := to_pos in
  (* Calculate movement vector *)
  let move_x := (x2 - x1)%float in
  let move_z := (z2 - z1)%float in
  let move_dist := PrimFloat.sqrt (move_x * move_x + move_z * move_z)%float in
  if (move_dist <? 0.001)%float then mret (x1, z1, false) else
  resolve_passes 3 x2 z2 false.

End collision.

(** ** camera.py: near-plane clipping *)

Definition Vec3 : Type := float * float * float.

Section camera.
Import config.

Definition inside (p : Vec3) : bool :=
  let '(_, _, pz) := p in (float_of_Z NEAR <=? pz)%float.

Definition intersect (a b : Vec3) : option Vec3 :=
  let '(ax, ay, az) := a in
  let '(bx, by_, bz) := b in
  let dz := (bz - az)%float in
  if (PrimFloat.abs dz <? 0.00001)%float then None else
  let t := ((float_of_Z NEAR - az) / dz)%float in
  if (t <? -0.001)%float || (1.001 <? t)%float then None else
  let t := fmax 0.0 (fmin 1.0 t) in
  Some (ax + (bx - ax) * t, ay + (by_ - ay) * t, float_of_Z NEAR + 0.001)%float.

(** The [for cur in poly] loop: [out] after the remaining vertices. *)
Fixpoint clip_loop (poly : list Vec3) (prev : Vec3) (prev_in : bool) (out : list Vec3)
    : list Vec3 :=
  match poly with
  | [] => out
  | cur :: rest =>
      let cur_in := inside cur in
      let out :=
        if cur_in && prev_in then out ++ [cur]
        else if cur_in && negb prev_in then
          match intersect prev cur with
          | Some intersection => (out ++ [intersection]) ++ [cur]
          | None => out ++ [cur]
          end
        else if negb cur_in && prev_in then
          match intersect prev cur with
          | Some intersection => out ++ [intersection]
          | None => out
          end
        else out in
      clip_loop rest cur cur_in out
  end.

Definition bad_vertex (p : Vec3) : bool :=
  let '(_, _, pz) := p in negb (is_finite pz) || (pz <? float_of_Z NEAR)%float.

Definition clip_poly_near (poly : list Vec3) : list Vec3 :=
  match rev poly with
  | [] => []
  | prev :: _ =>
      if (length poly <? 3)%nat then [] else
      let out := clip_loop poly prev (inside prev) [] in
      if (length out <? 3)%nat then [] else
      if existsb bad_vertex out then [] else
      out
  end.

End camera.

(** ** The CPython runtime

    [random.Random(seed).random()] and [hash] of a tuple of three integers
    as CPython 3.8 and later compute them on a 64-bit platform: the Mersenne
    Twister MT19937 seeded by [init_by_array] with the 32-bit words of
    [abs(seed)], and the xxHash-style tuple hash.  The seeding handles keys of
    at most 624 words, and the draws are those of the first block of
    outputs, which is all the engine asks of a generator. *)

Module CPython.

Definition mask32 (x : Z) : Z := Z.land x 0xffffffff.

(** [acc[i] = f(acc[i-1], old[i], i)] along a list. *)
Fixpoint scan (f : Z -> Z -> Z -> Z) (prev : Z) (i : Z) (old : list Z) : list Z :=
  match old with
  | [] => []
  | cur :: rest => let v := f prev cur i in v :: scan f v (i + 1) rest
  end.

(** [init_genrand(s)]: the 624 words of the state. *)
Definition init_genrand (s : Z) : list Z :=
  s :: scan (fun prev _ mti => mask32 (1812433253 * Z.lxor prev (Z.shiftr prev 30) + mti))
            s 1 (repeat 0 623).

(** The 32-bit words of [n], least significant first; one word for 0. *)
Fixpoint key_words (fuel : nat) (n : Z) : list Z :=
  match fuel with
  | O => []
  | S fuel' =>
      if n <? 4294967296 then [n]
      else mask32 n :: key_words fuel' (Z.shiftr n 32)
  end.

Definition init_by_array (init_key : list Z) : list Z :=
  let key_length := Z.of_nat (length init_key) in
  let key (t : Z) : Z := nth (Z.to_nat (t mod key_length)) init_key 0 in
  let mix1 (prev cur i : Z) : Z :=
    let j := (i - 1) mod key_length in
    mask32 (Z.lxor cur (Z.lxor prev (Z.shiftr prev 30) * 1664525) + key (i - 1) + j) in
  let mix2 (prev cur i : Z) : Z :=
    mask32 (Z.lxor cur (Z.lxor prev (Z.shiftr prev 30) * 1566083941) - i) in
  match init_genrand 19650218 with
  | [] => []
  | mt0 :: tail =>
      (* first loop, i = 1 .. 623 *)
      let a := scan mix1 mt0 1 tail in
      (* i wraps: mt[0] = mt[623], and the 624th step is at i = 1 *)
      let a0 := List.last a 0 in
      match a with
      | [] => []
      | a1 :: atail =>
          let j := 623 mod key_length in
          let a1' := mask32 (Z.lxor a1 (Z.lxor a0 (Z.shiftr a0 30) * 1664525) + key 623 + j) in
          (* second loop, i = 2 .. 623 *)
          let b := scan mix2 a1' 2 atail in
          (* i wraps again, and the last step is at i = 1 *)
          let b0 := List.last b 0 in
          let b1 := mix2 b0 a1' 1 in
          0x80000000 :: b1 :: b
      end
  end.

Definition seed_state (seed : Z) : list Z :=
  init_by_array (key_words 624 (Z.abs seed)).

(** The [n]-th output of [genrand_uint32] after seeding, for [n < 227]. *)
Definition genrand_uint32 (mt : list Z) (n : nat) : Z :=
  let y := Z.lor (Z.land (nth n mt 0) 0x80000000) (Z.land (nth (S n) mt 0) 0x7fffffff) in
  let y := Z.lxor (Z.lxor (nth (n + 397) mt 0) (Z.shiftr y 1))
                  (if Z.land y 1 =? 0 then 0 else 0x9908b0df) in
  let y := Z.lxor y (Z.shiftr y 11) in
  let y := Z.lxor y (Z.land (Z.shiftl y 7) 0x9d2c5680) in
  let y := Z.lxor y (Z.land (Z.shiftl y 15) 0xefc60000) in
  Z.lxor y (Z.shiftr y 18).

(** [random()]: [(a * 2^26 + b) / 2^53] from two outputs. *)
Definition random (seed : Z) (n : nat) : Q :=
  let mt := seed_state seed in
  let a := Z.shiftr (genrand_uint32 mt (2 * n)) 5 in
  let b := Z.shiftr (genrand_uint32 mt (2 * n + 1)) 6 in
  Qmake (a * 67108864 + b) 9007199254740992.

(** [hash(n)] for an [int]. *)
Definition hash_int (n : Z) : Z :=
  let h := Z.sgn n * (Z.abs n mod (2 ^ 61 - 1)) in
  if h =? -1 then -2 else h.

Definition mask64 (x : Z) : Z := x mod 2 ^ 64.
Definition XXPRIME_1 : Z := 11400714785074694791.
Definition XXPRIME_2 : Z := 14029467366897019727.
Definition XXPRIME_5 : Z := 2870177450012600261.
Definition XXROTATE (x : Z) : Z := mask64 (Z.lor (Z.shiftl x 31) (Z.shiftr x 33)).

Definition tuple_hash (items : list Z) : Z :=
  let acc := fold_left (fun acc item =>
                 let lane := mask64 (hash_int item) in
                 let acc := mask64 (acc + lane * XXPRIME_2) in
                 let acc := XXROTATE acc in
                 mask64 (acc * XXPRIME_1))
               items XXPRIME_5 in
  let acc := mask64 (acc + Z.lxor (Z.of_nat (length items)) (Z.lxor XXPRIME_5 3527539)) in
  if acc =? 2 ^ 64 - 1 then 1546275796
  else if acc <? 2 ^ 63 then acc else acc - 2 ^ 64.

Global Instance runtime : PyRuntime :=
  {| Random := random; hash3 := fun a b c => tuple_hash [a; b; c] |}.

End CPython.

(** ** Reasoning about methods

    [wp m s Q]: the method [m] run in state [s] returns normally, with a
    result and a final state that satisfy [Q]. *)

Definition wp {A : Type} (m : M A) (s : St) (Q : A -> St -> Prop) : Prop :=
  exists a s', m s = Some (a, s') /\ Q a s'.

(** The order of the damage states. *)
Definition rank (st : WallState) : nat :=
  match st with
  | INTACT => 0
  | CRACKED => 1
  | FRACTURED => 2
  | BREAKING => 3
  | DESTROYED => 4
  end.

(** What [hit_wall] reads for a key: the stored health and state, with the
    values a first hit initialises them to. *)
Definition stored_health (w : World) (k : WallKey) : float :=
  default 1.0%float (wall_health w !! k).

Definition stored_state (w : World) (k : WallKey) : WallState :=
  match wall_health w !! k with
  | None => INTACT
  | Some _ => default INTACT (wall_states w !! k)
  end.

(** A key's damage record is consistent: never hit, or a health in [0, 1]
    stored with the state its thresholds give. *)
Definition wall_ok (w : World) (k : WallKey) : Prop :=
  match wall_health w !! k with
  | None => wall_states w !! k = None
  | Some h =>
      (0 <=? h)%float = true /\ (h <=? 1)%float = true
      /\ wall_states w !! k = Some (state_of_health h)
  end.

(** A client hitting one wall repeatedly: the health and state read back
    after every call. *)
Fixpoint hit_sequence (k : WallKey) (hits : list (float * option (Q * Q))) (s : St)
    : option (list (bool * float * WallState) * St) :=
  match hits with
  | [] => Some ([], s)
  | (damage, hit_uv) :: rest =>
      match hit_wall k damage hit_uv s with
      | None => None
      | Some (b, s') =>
          match hit_sequence k rest s' with
          | None => None
          | Some (obs, s'') =>
              Some ((b, get_wall_health (world s') k, get_wall_state (world s') k) :: obs, s'')
          end
      end
  end.

(** Every adjacent pair of a list is related. *)
Fixpoint chain {A : Type} (R : A -> A -> Prop) (a : A) (l : list A) : Prop :=
  match l with
  | [] => True
  | b :: l' => R a b /\ chain R b l'
  end.

(** What one [hit_wall] on a wall that is not destroyed emits and spawns,
    by the stored state [old_state] and the state [new_state] of the new
    health. *)
Definition hit_events (k : WallKey) (old_state new_state : WallState) (new_health : float)
    : list Event :=
  let position := _get_wall_center k in
  if bool_decide (new_state ≠ old_state) then
    match new_state with
    | CRACKED => [wall_event WALL_CRACKED k position (Some new_health)]
    | FRACTURED => [wall_event WALL_FRACTURED k position (Some new_health)]
    | DESTROYED => [wall_event WALL_DESTROYED k position None]
    | _ => []
    end
  else if bool_decide (old_state ≠ INTACT)
       then [wall_event WALL_HIT k position (Some new_health)]
       else [].

Definition hit_debris (k : WallKey) (old_state new_state : WallState) (n_destroyed : nat)
    : list Debris :=
  if bool_decide (new_state ≠ old_state) then
    match new_state with
    | CRACKED => replicate 30 (Debris_new (impact_debris k) true)
    | FRACTURED => replicate 60 (Debris_new (impact_debris k) true)
    | DESTROYED => replicate (num_particles n_destroyed) (Debris_new (wall_collapse k) true)
    | _ => []
    end
  else if bool_decide (old_state ≠ INTACT)
       then replicate 20 (Debris_new (impact_debris k) true)
       else [].

Definition hit_cracks (hit_uv : option (Q * Q)) (new_state : WallState) : list Crack :=
  let first := {| crack_u := fst <$> hit_uv; crack_v := snd <$> hit_uv |} in
  let extra := {| crack_u := None; crack_v := None |} in
  match new_state with
  | CRACKED => [first]
  | FRACTURED => [first; extra; extra]
  | _ => []
  end.

(** The effect of [hit_wall k d hit_uv] from [s], returning [b] in [s']. *)
Definition hit_effect (k : WallKey) (d : float) (hit_uv : option (Q * Q)) (s : St)
    (b : bool) (s' : St) : Prop :=
  let w := world s in
  let w' := world s' in
  let old_state := stored_state w k in
  let new_health := fmax 0.0 (stored_health w k - d) in
  let new_state := state_of_health new_health in
  b = bool_decide (new_state = DESTROYED /\ old_state ≠ DESTROYED)
  /\ wall_states w' !! k = Some new_state
  /\ wall_health w' !! k = Some (if b then 0.0%float else new_health)
  /\ destroyed_walls w' = (if b then {[k]} ∪ destroyed_walls w else destroyed_walls w)
  /\ emitted (event_bus s') = emitted (event_bus s) ++ hit_events k old_state new_state new_health
  /\ debris_pieces w' = debris_pieces w
       ++ hit_debris k old_state new_state (size ({[k]} ∪ destroyed_walls w))
  /\ (hit_cracks hit_uv new_state = [] -> wall_cracks w' = wall_cracks w)
  /\ (hit_cracks hit_uv new_state <> [] ->
      wall_cracks w' !! k = Some (get_wall_cracks w k ++ hit_cracks hit_uv new_state))
  /\ (forall k', k' ≠ k ->
        wall_states w' !! k' = wall_states w !! k'
        /\ wall_health w' !! k' = wall_health w !! k'
        /\ wall_cracks w' !! k' = wall_cracks w !! k')
  /\ world_seed w' = world_seed w
  /\ pillar_cache w' = pillar_cache w /\ wall_cache w' = wall_cache w
  /\ zone_cache w' = zone_cache w
  /\ destroyed_pillars w' = destroyed_pillars w
  /\ pre_damaged_walls w' = pre_damaged_walls w
  /\ _spawned_rubble w' = _spawned_rubble w
  /\ _subscribers (event_bus s') = _subscribers (event_bus s).

(** ** Scenarios *)

(** Four hits of 0.25 on one wall from [s]: what the calls return, the
    health and state read back after each, and what was emitted. *)
Definition four_hits (k : WallKey) (hit_uv : option (Q * Q)) (s : St) : Prop :=
  exists s1 s2 s3 s4 evs,
    hit_wall k 0.25%float hit_uv s = Some (false, s1)
    /\ hit_wall k 0.25%float hit_uv s1 = Some (false, s2)
    /\ hit_wall k 0.25%float hit_uv s2 = Some (false, s3)
    /\ hit_wall k 0.25%float hit_uv s3 = Some (true, s4)
    /\ (get_wall_health (world s) k = 1.0
        /\ get_wall_health (world s1) k = 0.75
        /\ get_wall_health (world s2) k = 0.5
        /\ get_wall_health (world s3) k = 0.25
        /\ get_wall_health (world s4) k = 0.0)%float
    /\ get_wall_state (world s) k = INTACT
    /\ get_wall_state (world s1) k = INTACT
    /\ get_wall_state (world s2) k = CRACKED
    /\ get_wall_state (world s3) k = FRACTURED
    /\ get_wall_state (world s4) k = DESTROYED
    /\ emitted (event_bus s4) = emitted (event_bus s) ++ evs
    /\ map type evs = [WALL_CRACKED; WALL_FRACTURED; WALL_DESTROYED]
    /\ length (filter (fun e => type e = WALL_DESTROYED) evs) = 1%nat.

(** A wall of the grid, used in the examples. *)
Definition wall_0 : WallKey := ((0, 0), (400, 0)).

(** The state after [destroy_wall] on [wall_0] in a fresh world. *)
Definition st_wall_0_destroyed : St :=
  match destroy_wall wall_0 false (St_init 42) with
  | Some (_, s) => s
  | None => St_init 42
  end.

(** One reading of a wall is no healthier and no less damaged than the
    reading before it. *)
Definition wears (a b : bool * float * WallState) : Prop :=
  (snd (fst b) <=? snd (fst a))%float = true /\ (rank (snd a) <= rank (snd b))%nat.

Definition health_in_range (a : bool * float * WallState) : Prop :=
  (0 <=? snd (fst a))%float = true /\ (snd (fst a) <=? 1)%float = true.

(** The reading of a wall before any call. *)
Definition reading (s : St) (k : WallKey) : bool * float * WallState :=
  (false, get_wall_health (world s) k, get_wall_state (world s) k).

(** A state in which [wall_0] was hit twice with damage 0.25. *)
Definition st_wall_0_hit_twice : St :=
  match hit_sequence wall_0 [(0.25%float, None); (0.25%float, None)] (St_init 42) with
  | Some (_, s) => s
  | None => St_init 42
  end.

(** The outcome of a run of hits (C4). *)
Definition sequence_wears (k : WallKey) (hits : list (float * option (Q * Q))) (s : St) : Prop :=
  exists obs s',
    hit_sequence k hits s = Some (obs, s')
    /\ length obs = length hits
    /\ chain wears (reading s k) obs
    /\ Forall health_in_range (reading s k :: obs)
    /\ wall_ok (world s') k.

(** The two damage dicts agree on whether a key was ever hit. *)
Definition wall_recorded (w : World) (k : WallKey) : Prop :=
  is_Some (wall_health w !! k) <-> is_Some (wall_states w !! k).

(** The outcome of one [hit_wall] on a wall that is not destroyed, as far
    as notifications, debris and the returned flag go. *)
Definition hit_notifies (k : WallKey) (d : float) (hit_uv : option (Q * Q)) (s : St) : Prop :=
  exists b s',
    hit_wall k d hit_uv s = Some (b, s')
    /\ (get_wall_state (world s') k = get_wall_state (world s) k ->
        b = false
        /\ (get_wall_state (world s) k ≠ INTACT ->
            emitted (event_bus s')
            = emitted (event_bus s)
              ++ [wall_event WALL_HIT k (_get_wall_center k)
                    (Some (get_wall_health (world s') k))]
            /\ debris_pieces (world s')
               = debris_pieces (world s) ++ replicate 20 (Debris_new (impact_debris k) true))
        /\ (get_wall_state (world s) k = INTACT ->
            emitted (event_bus s') = emitted (event_bus s)
            /\ debris_pieces (world s') = debris_pieces (world s)))
    /\ (b = true ->
        get_wall_state (world s) k ≠ DESTROYED
        /\ get_wall_state (world s') k = DESTROYED
        /\ k ∈ destroyed_walls (world s')).

(** The full burst of a collapse when [n] keys are destroyed, the new one
    included: [burst] particles, between 250 and 1200 of them, 1142 for the
    first key destroyed in a world. *)
Definition full_burst (n burst : nat) : Prop :=
  burst = num_particles n
  /\ (250 <= burst <= 1200)%nat
  /\ (n = 1%nat -> burst = 1142%nat).

(** Two calls of [destroy_wall] on a wall: the first spawned the full burst
    and emitted the notification, the wall is destroyed and reads health 0;
    the second changes nothing. *)
Definition wall_destroyed_once (k : WallKey) (sound sound' : bool) (s : St) : Prop :=
  exists s1 burst,
    destroy_wall k sound s = Some (tt, s1)
    /\ destroy_wall k sound' s1 = Some (tt, s1)
    /\ full_burst (S (size (destroyed_walls (world s)))) burst
    /\ debris_pieces (world s1)
       = debris_pieces (world s) ++ replicate burst (Debris_new (wall_collapse k) true)
    /\ length (debris_pieces (world s1)) = (length (debris_pieces (world s)) + burst)%nat
    /\ emitted (event_bus s1)
       = emitted (event_bus s) ++ [wall_event WALL_DESTROYED k (_get_wall_center k) None]
    /\ destroyed_walls (world s1) = {[k]} ∪ destroyed_walls (world s)
    /\ get_wall_state (world s1) k = DESTROYED
    /\ get_wall_health (world s1) k = 0.0%float.

Definition pillar_destroyed_once (p : PillarKey) (sound sound' : bool) (s : St) : Prop :=
  exists s1 ev burst,
    destroy_pillar p sound s = Some (tt, s1)
    /\ destroy_pillar p sound' s1 = Some (tt, s1)
    /\ full_burst (S (size (destroyed_pillars (world s)))) burst
    /\ debris_pieces (world s1)
       = debris_pieces (world s) ++ replicate burst (Debris_new (pillar_collapse p) true)
    /\ length (debris_pieces (world s1)) = (length (debris_pieces (world s)) + burst)%nat
    /\ emitted (event_bus s1) = emitted (event_bus s) ++ [ev]
    /\ type ev = PILLAR_DESTROYED /\ pillar_key ev = Some p
    /\ destroyed_pillars (world s1) = {[p]} ∪ destroyed_pillars (world s).

(** A pillar of the grid, used in the examples. *)
Definition pillar_0 : PillarKey := (200, 200).

(** ** The generators behind the caches

    What the procedural queries compute on a cache miss, as functions of
    the seed and the coordinates. *)

Section generators.
Context `{PyRuntime}.
Import config.

Definition zone_props_at (seed : Z) (x z : Q) : option ProceduralZone.Props :=
  let '(zone_x, zone_z) := get_zone_at x z in
  ProceduralZone.get_zone_properties zone_x zone_z seed.

Definition room_size_at (seed : Z) (x z : Q) : option Z :=
  (fun props => ProceduralZone.room_size (ProceduralZone.archetype props))
    <$> zone_props_at seed x z.

Definition wall_aligned (room_size x1 z1 x2 z2 : Z) : bool :=
  let is_horizontal := z1 =? z2 in
  let is_vertical := x1 =? x2 in
  if negb (is_horizontal || is_vertical) then false else
  if (if is_horizontal
      then negb (on_grid z1 room_size) || span_mismatch x1 x2 room_size
      else negb (on_grid x1 room_size) || span_mismatch z1 z2 room_size)
  then false else true.

Definition wall_exists (seed x1 z1 x2 z2 : Z) : option bool :=
  (fun room_size => wall_aligned room_size x1 z1 x2 z2)
    <$> room_size_at seed (inject_Z (x1 + x2) / 2) (inject_Z (z1 + z2) / 2).

Definition pillar_exists (seed px pz : Z) : bool :=
  if String.eqb PILLAR_MODE "none" then false else
  let offset := PILLAR_SPACING / 2 in
  if negb ((px mod PILLAR_SPACING =? offset) && (pz mod PILLAR_SPACING =? offset)) then false else
  if String.eqb PILLAR_MODE "all" then true else
  Qltb (Random (hash3 px pz seed mod 100000) 0)
       (default 0.0%Q (ProceduralZone.dict_get probability_map PILLAR_MODE)).

(** Every cache entry is the value its generator gives for the seed. *)
Definition caches_ok (w : World) : Prop :=
  (forall zx zz props,
      zone_cache w !! (zx, zz) = Some props ->
      ProceduralZone.get_zone_properties zx zz (world_seed w) = Some props)
  /\ (forall px pz b,
        pillar_cache w !! (px, pz) = Some b -> b = pillar_exists (world_seed w) px pz)
  /\ (forall x1 z1 x2 z2 b,
        wall_cache w !! sorted_key (x1, z1) (x2, z2) = Some b ->
        wall_exists (world_seed w) x1 z1 x2 z2 = Some b).

(** [World.get_zone_properties], [has_pillar_at], [has_wall_between] and
    [get_doorway_type] asked in [s], asked again after the first call, and
    asked in another state [s'] all give one answer. *)
Definition same_answers {A : Type} (query : M A) (s s' : St) : Prop :=
  exists a t u t',
    query s = Some (a, t) /\ query t = Some (a, u) /\ query s' = Some (a, t').

Definition queries_agree (s s' : St) : Prop :=
  forall x1 z1 x2 z2 : Z,
    same_answers (has_wall_between x1 z1 x2 z2) s s'
    /\ same_answers (has_pillar_at x1 z1) s s'
    /\ same_answers (world_get_doorway_type x1 z1 x2 z2) s s'
    /\ same_answers (get_zone_properties x1 z1) s s'.


Definition wall_chance_at (seed x1 z1 x2 z2 : Z) : option Q :=
  (fun props => ProceduralZone.wall_chance (ProceduralZone.archetype props))
    <$> zone_props_at seed (inject_Z (x1 + x2) / 2) (inject_Z (z1 + z2) / 2).

Definition decay_chance_at (seed x1 z1 x2 z2 : Z) : option Q :=
  ProceduralZone.decay_chance
    <$> zone_props_at seed (inject_Z (x1 + x2) / 2) (inject_Z (z1 + z2) / 2).

Definition decay_seed_of (seed x1 z1 x2 z2 : Z) : Z :=
  x1 * 7919 + z1 * 6577 + x2 * 4993 + z2 * 3571 + seed * 9973.


End generators.

(** [load_state]: the seed and the destroyed walls come from the save data
    (a missing seed keeps the current one), and the three caches are
    cleared. *)
Definition load_state (seed : option Z) (destroyed : list WallKey) (w : World) : World :=
  set_zone_cache ∅ (set_wall_cache ∅ (set_pillar_cache ∅
    {| world_seed := default (world_seed w) seed;
       pillar_cache := pillar_cache w; wall_cache := wall_cache w;
       zone_cache := zone_cache w;
       destroyed_walls := list_to_set destroyed;
       destroyed_pillars := destroyed_pillars w;
       pre_damaged_walls := pre_damaged_walls w; wall_states := wall_states w;
       wall_health := wall_health w; wall_cracks := wall_cracks w;
       debris_pieces := debris_pieces w; _spawned_rubble := _spawned_rubble w |})).

(** Only the caches of the world may differ between [s] and [t]. *)
Definition caches_only (s t : St) : Prop :=
  event_bus t = event_bus s /\ sounds_played t = sounds_played s
  /\ world_seed (world t) = world_seed (world s)
  /\ destroyed_walls (world t) = destroyed_walls (world s)
  /\ destroyed_pillars (world t) = destroyed_pillars (world s)
  /\ pre_damaged_walls (world t) = pre_damaged_walls (world s)
  /\ wall_states (world t) = wall_states (world s)
  /\ wall_health (world t) = wall_health (world s)
  /\ wall_cracks (world t) = wall_cracks (world s)
  /\ debris_pieces (world t) = debris_pieces (world s)
  /\ _spawned_rubble (world t) = _spawned_rubble (world s).

(** ** world.py: rubble piles and save data *)

Definition set_spawned_rubble (v : gset WallKey) (w : World) : World :=
  {| world_seed := world_seed w; pillar_cache := pillar_cache w;
     wall_cache := wall_cache w; zone_cache := zone_cache w;
     destroyed_walls := destroyed_walls w;
     destroyed_pillars := destroyed_pillars w;
     pre_damaged_walls := pre_damaged_walls w; wall_states := wall_states w;
     wall_health := wall_health w; wall_cracks := wall_cracks w;
     debris_pieces := debris_pieces w; _spawned_rubble := v |}.

(** [spawn_rubble_pile]: 80 particles created with [velocity=None]. *)
Definition spawn_rubble_pile (x1 z1 x2 z2 : Z) : M unit :=
  let wall_key := sorted_key (x1, z1) (x2, z2) in
  w ← get_world;
  if bool_decide (wall_key ∈ _spawned_rubble w) then mret tt else
  update_world (fun w => set_spawned_rubble ({[wall_key]} ∪ _spawned_rubble w) w);;
  update_world (fun w =>
    set_debris_pieces
      (spawn_loop 80 (Debris_new (rubble_pile wall_key) false) (debris_pieces w)) w).

(** The dict of [get_state_for_save]: the seed and the destroyed walls as
    a list (in the order the set is iterated). *)
Record SaveData := {
  save_seed : option Z;
  save_destroyed_walls : list WallKey
}.

Definition get_state_for_save (w : World) : SaveData :=
  {| save_seed := Some (world_seed w);
     save_destroyed_walls := elements (destroyed_walls w) |}.

Definition world_load_state (data : SaveData) (w : World) : World :=
  load_state (save_seed data) (save_destroyed_walls data) w.

(** ** events.py: the rest of the bus *)

(** [list.remove(handler)]: the first occurrence. *)
Fixpoint list_remove (handler : Handler) (l : list Handler) : list Handler :=
  match l with
  | [] => []
  | h :: l' => if bool_decide (h = handler) then l' else h :: list_remove handler l'
  end.

Definition unsubscribe (event_type : EventType) (handler : Handler) (bus : EventBus) : EventBus :=
  if bool_decide (handler ∈ _subscribers bus event_type) then
    {| _subscribers := fun t => if bool_decide (t = event_type)
                                then list_remove handler (_subscribers bus t)
                                else _subscribers bus t;
       _queue := _queue bus; _processing := _processing bus;
       emitted := emitted bus; calls := calls bus |}
  else bus.

Definition queue (event : Event) (bus : EventBus) : EventBus :=
  {| _subscribers := _subscribers bus; _queue := _queue bus ++ [event];
     _processing := _processing bus; emitted := emitted bus; calls := calls bus |}.

(** [process_queue]: a call made while the queue is being processed
    returns at once; otherwise the queued events are emitted from the front
    and the queue is left empty. *)
Definition process_queue (bus : EventBus) : EventBus :=
  if _processing bus then bus else
  let bus' := fold_left (fun b event => emit event b) (_queue bus) bus in
  {| _subscribers := _subscribers bus'; _queue := [];
     _processing := false; emitted := emitted bus'; calls := calls bus' |}.

(** No handler is subscribed twice to one event type. *)
Definition subscribers_ok (bus : EventBus) : Prop :=
  forall t, NoDup (_subscribers bus t).

(** The handler calls one [emit] makes. *)
Definition deliveries (bus : EventBus) (event : Event) : list (Handler * Event) :=
  map (fun handler => (handler, event)) (_subscribers bus (type event)).

Section decay.
Context `{PyRuntime}.

(** The decay roll: what it leaves in the pre-damage dict and the
    destroyed set. *)
Definition decay_outcome (x1 z1 x2 z2 : Z) (s t : St) : Prop :=
  let key := sorted_key (x1, z1) (x2, z2) in
  let seed := world_seed (world s) in
  match pre_damaged_walls (world s) !! key with
  | Some _ =>
      pre_damaged_walls (world t) = pre_damaged_walls (world s)
      /\ destroyed_walls (world t) = destroyed_walls (world s)
  | None =>
      forall chance,
        decay_chance_at seed x1 z1 x2 z2 = Some chance ->
        let roll := Random (decay_seed_of seed x1 z1 x2 z2) 0 in
        let damage := (0.0 + (0.5 - 0.0) * Random (decay_seed_of seed x1 z1 x2 z2) 1)%Q in
        pre_damaged_walls (world t)
        = (if Qltb roll chance then <[key := damage]> (pre_damaged_walls (world s))
           else pre_damaged_walls (world s))
        /\ destroyed_walls (world t)
           = (if Qltb roll chance && Qltb damage 0.2
              then {[key]} ∪ destroyed_walls (world s)
              else destroyed_walls (world s))
  end.

End decay.

(** What a procedural query leaves alone: everything but the caches, the
    pre-damage dict and the destroyed walls. *)
Definition query_frame (s t : St) : Prop :=
  event_bus t = event_bus s /\ sounds_played t = sounds_played s
  /\ world_seed (world t) = world_seed (world s)
  /\ destroyed_pillars (world t) = destroyed_pillars (world s)
  /\ wall_states (world t) = wall_states (world s)
  /\ wall_health (world t) = wall_health (world s)
  /\ wall_cracks (world t) = wall_cracks (world s)
  /\ debris_pieces (world t) = debris_pieces (world s)
  /\ _spawned_rubble (world t) = _spawned_rubble (world s).

Section grid_walls.
Context `{PyRuntime}.
Import config.


(** A wall asked with its endpoints in either order: one answer, and the
    second question is answered from the cache. *)
Definition endpoint_order_irrelevant (x1 z1 x2 z2 : Z) (s : St) : Prop :=
  exists b t t',
    has_wall_between x1 z1 x2 z2 s = Some (b, t)
    /\ has_wall_between x2 z2 x1 z1 s = Some (b, t')
    /\ has_wall_between x2 z2 x1 z1 t = Some (b, t).

End grid_walls.

(** ** Statements about damage, saving and rubble *)

(** What is read for a wall. *)
Definition wall_reading (w : World) (k : WallKey) : float * WallState * list Crack * bool :=
  (get_wall_health w k, get_wall_state w k, get_wall_cracks w k, is_wall_destroyed w k).

(** [hit_wall k] from [s]: it returns, every other wall reads as before,
    and the caches, the seed, the pre-damage dict, the destroyed pillars and
    the rubble set are the ones of [s]. *)
Definition hit_is_local (k : WallKey) (d : float) (hit_uv : option (Q * Q)) (s : St) : Prop :=
  exists b s',
    hit_wall k d hit_uv s = Some (b, s')
    /\ (forall k', k' ≠ k -> wall_reading (world s') k' = wall_reading (world s) k')
    /\ world_seed (world s') = world_seed (world s)
    /\ pillar_cache (world s') = pillar_cache (world s)
    /\ wall_cache (world s') = wall_cache (world s)
    /\ zone_cache (world s') = zone_cache (world s)
    /\ pre_damaged_walls (world s') = pre_damaged_walls (world s)
    /\ destroyed_pillars (world s') = destroyed_pillars (world s)
    /\ _spawned_rubble (world s') = _spawned_rubble (world s)
    /\ destroyed_walls (world s) ⊆ destroyed_walls (world s').

(** Every wall's damage record is consistent. *)
Definition walls_ok (w : World) : Prop := forall k, wall_ok w k.

Definition keeps_walls_ok {A : Type} (m : M A) (s : St) : Prop :=
  exists a s', m s = Some (a, s') /\ walls_ok (world s').

(** [spawn_rubble_pile] called twice for one wall, the second time with
    the endpoints swapped. *)
Definition rubble_spawned_once (x1 z1 x2 z2 : Z) (s : St) : Prop :=
  let key := sorted_key (x1, z1) (x2, z2) in
  exists s1,
    spawn_rubble_pile x1 z1 x2 z2 s = Some (tt, s1)
    /\ spawn_rubble_pile x2 z2 x1 z1 s1 = Some (tt, s1)
    /\ debris_pieces (world s1)
       = debris_pieces (world s) ++ replicate 80 (Debris_new (rubble_pile key) false)
    /\ Forall (fun d => is_settled d = true /\ active d = true)
              (replicate 80 (Debris_new (rubble_pile key) false))
    /\ emitted (event_bus s1) = emitted (event_bus s)
    /\ destroyed_walls (world s1) = destroyed_walls (world s)
    /\ spawn_rubble_pile x1 z1 x2 z2 s1 = Some (tt, s1).

(** The values an archetype of the table can have; the decay chance is
    the entry of the decay table for the zone type. *)
Definition props_in_range (props : ProceduralZone.Props) : Prop :=
  let a := ProceduralZone.archetype props in
  400 <= ProceduralZone.room_size a <= 4000
  /\ (200 | ProceduralZone.room_size a)
  /\ 0 < ProceduralZone.min_ceiling a <= ProceduralZone.max_ceiling a
  /\ (0 <= ProceduralZone.wall_chance a <= 6 # 10)%Q
  /\ (0 <= ProceduralZone.pillar_density a <= 7 # 10)%Q
  /\ (2 # 100 <= ProceduralZone.decay_chance props <= 2 # 10)%Q
  /\ ProceduralZone.dict_get ProceduralZone.ZONE_TYPES (ProceduralZone.zone_type props)
     = Some a
  /\ ProceduralZone.dict_get ProceduralZone.decay_chances (ProceduralZone.zone_type props)
     = Some (ProceduralZone.decay_chance props).

(** Saving a world and loading the data back into it (or into another
    world [w0]). *)
Definition reloaded (w w0 : World) : World :=
  world_load_state (get_state_for_save w) w0.

(** ** Statements about the event bus *)

(** [subscribe] and [unsubscribe] of one handler, and [emit], on a bus. *)
Definition subscription_unique (t : EventType) (h : Handler) (event : Event)
    (bus : EventBus) : Prop :=
  subscribers_ok (subscribe t h bus)
  /\ subscribers_ok (unsubscribe t h bus)
  /\ h ∈ _subscribers (subscribe t h bus) t
  /\ ~ (h ∈ _subscribers (unsubscribe t h bus) t)
  /\ subscribe t h (subscribe t h bus) = subscribe t h bus
  /\ (forall t', t' ≠ t ->
        _subscribers (subscribe t h bus) t' = _subscribers bus t'
        /\ _subscribers (unsubscribe t h bus) t' = _subscribers bus t')
  /\ calls (emit event bus) = calls bus ++ deliveries bus event
  /\ NoDup (deliveries bus event)
  /\ emitted (emit event bus) = emitted bus ++ [event].

(** Queueing [events] on [bus] and then processing the queue. *)
Definition queue_flushed (events : list Event) (bus : EventBus) : Prop :=
  let queued := fold_left (fun b event => queue event b) events bus in
  let bus' := process_queue queued in
  emitted queued = emitted bus
  /\ emitted bus' = emitted bus ++ _queue bus ++ events
  /\ calls bus' = calls bus ++ concat (map (deliveries bus) (_queue bus ++ events))
  /\ _queue bus' = []
  /\ _subscribers bus' = _subscribers bus
  /\ process_queue bus' = bus'.

(** A bus with two subscribers, used in the examples. *)
Definition bus_0 : EventBus :=
  subscribe WALL_DESTROYED 2%nat (subscribe WALL_DESTROYED 1%nat EventBus_init).

(** ** Statements about check_collision *)

Section collision_statements.
Context `{PyRuntime}.

(** What a collision check leaves of [s] in [t]: coherent caches, the
    frame of the procedural queries, and no destroyed wall restored. *)
Definition collision_frame (s t : St) : Prop :=
  caches_ok (world t) /\ query_frame s t
  /\ destroyed_walls (world s) ⊆ destroyed_walls (world t).

(** [check_collision x z] from [s] returns; a position that is not finite
    collides and leaves the state as it is. *)
Definition check_collision_returns (x z : float) (s : St) : Prop :=
  exists b t,
    check_collision x z s = Some (b, t)
    /\ collision_frame s t
    /\ (is_finite x && is_finite z = false -> b = true /\ t = s).


End collision_statements.

(** ** Statements about clip_poly_near *)

Definition vertex_z (p : Vec3) : float := let '(_, _, pz) := p in pz.

(** A vertex the projection accepts: finite depth, not nearer than the
    near plane. *)
Definition drawable (p : Vec3) : Prop :=
  is_finite (vertex_z p) = true
  /\ (vertex_z p <? float_of_Z config.NEAR)%float = false.

(** A vertex made by [intersect]. *)
Definition on_near_plane (p : Vec3) : Prop :=
  vertex_z p = (float_of_Z config.NEAR + 0.001)%float.

(** [out] is a clipping of [poly]: nothing, or at least three drawable
    vertices, each a vertex of [poly] on the visible side or a new vertex
    on the near plane, and not more than two for each vertex of [poly]. *)
Definition clipped (poly out : list Vec3) : Prop :=
  out = []
  \/ ((3 <= length out)%nat
      /\ (length out <= 2 * length poly)%nat
      /\ Forall (fun p => drawable p
                          /\ ((p ∈ poly /\ inside p = true) \/ on_near_plane p)) out).

(** ** Statements about the solver's segments *)

Definition axis_aligned (segment : Segment) : Prop :=
  let '(seg_x1, seg_z1, seg_x2, seg_z2) := segment in
  seg_x1 = seg_x2 \/ seg_z1 = seg_z2.

Section segment_statements.
Context `{PyRuntime}.
Import config.

(** The segments of a wall, from the seed and the set of destroyed walls. *)
Definition wall_segments_at (seed : Z) (destroyed : gset WallKey)
    (x1 z1 x2 z2 wall_start wall_across : Z) (mk : float -> float -> float * float)
    : list Segment :=
  match wall_exists seed x1 z1 x2 z2 with
  | Some true =>
      if bool_decide (sorted_key (x1, z1) (x2, z2) ∈ destroyed) then []
      else wall_segments (get_doorway_type seed x1 z1 x2 z2) wall_start wall_across mk
  | _ => []
  end.

Definition pillar_sides (pillar_x pillar_z : Z) : list Segment :=
  let s := PILLAR_SIZE in
  let x0 := float_of_Z pillar_x in
  let x1 := float_of_Z (pillar_x + s) in
  let z0 := float_of_Z pillar_z in
  let z1 := float_of_Z (pillar_z + s) in
  [ (x0, z0, x1, z0); (x1, z0, x1, z1); (x1, z1, x0, z1); (x0, z1, x0, z0) ].

Definition pillar_segments_at (seed : Z) (destroyed : gset PillarKey) (px pz : Z)
    : list Segment :=
  let offset := PILLAR_SPACING / 2 in
  if pillar_exists seed (px + offset) (pz + offset)
     && negb (bool_decide ((px + offset, pz + offset) ∈ destroyed))
  then pillar_sides (px + offset) (pz + offset) else [].

Definition cell_segments_at (seed : Z) (destroyed : gset WallKey)
    (destroyed_p : gset PillarKey) (px pz : Z) : list Segment :=
  wall_segments_at seed destroyed px pz (px + PILLAR_SPACING) pz px pz
                   (fun along across => (along, across))
  ++ wall_segments_at seed destroyed px pz px (pz + PILLAR_SPACING) pz px
                      (fun along across => (across, along))
  ++ pillar_segments_at seed destroyed_p px pz.


(** [_get_nearby_segments x z] from [s] returns axis-aligned segments. *)
Definition nearby_segments_ok (x z : float) (s : St) : Prop :=
  exists segments t,
    _get_nearby_segments x z s = Some (segments, t)
    /\ collision_frame s t
    /\ Forall axis_aligned segments.

End segment_statements.

(** ** States and polygons used in the examples *)


Definition triangle_ahead : list Vec3 :=
  [ (float_of_Z 0, float_of_Z 0, float_of_Z 2);
    (float_of_Z 1, float_of_Z 0, float_of_Z 2);
    (float_of_Z 0, float_of_Z 1, float_of_Z 3) ].

Definition triangle_behind : list Vec3 :=
  [ (float_of_Z 0, float_of_Z 0, float_of_Z (-2));
    (float_of_Z 1, float_of_Z 0, float_of_Z (-2));
    (float_of_Z 0, float_of_Z 1, float_of_Z 0) ].

(** * Properties *)

Import config.

(** Unfolding of the state monad. *)
Ltac unfold_M :=
  unfold mbind, M_bind, mret, M_ret, get_world, update_world, event_bus_emit,
    play, subscript, raise in *.

(** ** Rules for [wp] *)

Section wp_rules.
Context {A B : Type}.

Lemma wp_ret (a : A) s (Q : A -> St -> Prop) : Q a s -> wp (mret a) s Q.
Proof. intros HQ. exists a, s. split; [reflexivity | exact HQ]. Qed.

Lemma wp_bind (m : M A) (f : A -> M B) s (Q : B -> St -> Prop) :
  wp m s (fun a s' => wp (f a) s' Q) -> wp (m ≫= f) s Q.
Proof.
  intros (a & s' & Hm & b & s'' & Hf & HQ). exists b, s''. split; [| exact HQ].
  unfold mbind, M_bind. rewrite Hm. exact Hf.
Qed.

Lemma wp_mono (m : M A) s (Q Q' : A -> St -> Prop) :
  wp m s Q -> (forall a s', Q a s' -> Q' a s') -> wp m s Q'.
Proof. intros (a & s' & Hm & HQ) HQQ. exists a, s'. split; [exact Hm | apply HQQ, HQ]. Qed.

Lemma wp_subscript (o : option A) (a : A) s (Q : A -> St -> Prop) :
  o = Some a -> Q a s -> wp (subscript o) s Q.
Proof. intros -> HQ. exists a, s. split; [reflexivity | exact HQ]. Qed.

End wp_rules.

Lemma wp_get_world s (Q : World -> St -> Prop) : Q (world s) s -> wp get_world s Q.
Proof. intros HQ. exists (world s), s. split; [reflexivity | exact HQ]. Qed.

Lemma wp_update_world f s (Q : unit -> St -> Prop) :
  Q tt {| world := f (world s); event_bus := event_bus s; sounds_played := sounds_played s |} ->
  wp (update_world f) s Q.
Proof. intros HQ. eexists _, _. split; [reflexivity | exact HQ]. Qed.

Lemma wp_emit ev s (Q : unit -> St -> Prop) :
  Q tt {| world := world s; event_bus := emit ev (event_bus s);
          sounds_played := sounds_played s |} ->
  wp (event_bus_emit ev) s Q.
Proof. intros HQ. eexists _, _. split; [reflexivity | exact HQ]. Qed.

Lemma wp_play (b : bool) s (Q : unit -> St -> Prop) :
  Q tt {| world := world s; event_bus := event_bus s;
          sounds_played := if b then S (sounds_played s) else sounds_played s |} ->
  wp (play b) s Q.
Proof. intros HQ. eexists _, _. split; [reflexivity | exact HQ]. Qed.

Ltac wp_step :=
  lazymatch goal with
  | |- wp (mbind _ _) _ _ => apply wp_bind
  | |- wp (mret _) _ _ => apply wp_ret
  | |- wp get_world _ _ => apply wp_get_world
  | |- wp (update_world _) _ _ => apply wp_update_world
  | |- wp (event_bus_emit _) _ _ => apply wp_emit
  | |- wp (play _) _ _ => apply wp_play
  end; cbv beta; cbn [world event_bus sounds_played].

Ltac wp_steps := repeat wp_step.

Arguments spawn_loop : simpl never.
Arguments state_of_health : simpl never.
Arguments fmax : simpl never.
Arguments num_particles : simpl never.
Arguments _get_wall_center : simpl never.

Lemma spawn_loop_replicate count d pieces :
  spawn_loop count d pieces = pieces ++ replicate count d.
Proof.
  revert pieces. induction count as [| n IH]; intros pieces; simpl.
  - unfold spawn_loop. now rewrite app_nil_r.
  - change (spawn_loop (S n) d pieces) with (spawn_loop n d (pieces ++ [d])).
    rewrite IH, <- app_assoc. reflexivity.
Qed.


(** ** Binary64: order and rounding

    The kernel specifies its floats by the functions of [SpecFloat]
    ([FloatAxioms]); the facts the damage system rests on are derived from
    those: the order of floats that are not NaN is a total preorder, and a
    subtraction [h - d] with [h >= 0] and [d >= 0] never rounds to a float
    above [h]. *)

Ltac cmp_cases :=
  repeat match goal with
  | H : context [Z.compare ?a ?b] |- _ => destruct (Z.compare_spec a b)
  | |- context [Z.compare ?a ?b] => destruct (Z.compare_spec a b)
  | H : context [Pos.compare ?a ?b] |- _ => destruct (Pos.compare_spec a b)
  | |- context [Pos.compare ?a ?b] => destruct (Pos.compare_spec a b)
  end.

Lemma SFleb_trans (a b c : spec_float) :
  SFleb a b = true -> SFleb b c = true -> SFleb a c = true.
Proof.
  unfold SFleb, SFcompare.
  destruct a as [sa | sa | | sa ma ea], b as [sb | sb | | sb mb eb],
           c as [sc | sc | | sc mc ec];
    try destruct sa; try destruct sb; try destruct sc;
    try reflexivity; try discriminate;
    change (Pos.compare_cont Eq) with Pos.compare;
    intros Hab Hbc; cmp_cases; cbn in *; subst;
    try reflexivity; try discriminate; exfalso; lia.
Qed.

Lemma SFleb_refl (a : spec_float) : a <> S754_nan -> SFleb a a = true.
Proof.
  unfold SFleb, SFcompare. destruct a as [sa | sa | | sa ma ea]; try destruct sa;
    try reflexivity; try congruence; intros _;
    rewrite Z.compare_refl; change (Pos.compare_cont Eq) with Pos.compare;
    rewrite Pos.compare_refl; reflexivity.
Qed.

Lemma SFltb_SFleb (a b : spec_float) : SFltb a b = true -> SFleb a b = true.
Proof. unfold SFltb, SFleb. destruct (SFcompare a b) as [[| |]|]; auto. Qed.

Lemma SFleb_SFltb_false (a b : spec_float) :
  SFleb a b = true -> SFltb b a = false.
Proof.
  unfold SFleb, SFltb, SFcompare.
  destruct a as [sa | sa | | sa ma ea], b as [sb | sb | | sb mb eb];
    try destruct sa; try destruct sb; try reflexivity; try discriminate;
    change (Pos.compare_cont Eq) with Pos.compare;
    intros Hab; cmp_cases; cbn in *; subst;
    try reflexivity; try discriminate; exfalso; lia.
Qed.

(** Two floats that are not NaN compare one way or the other. *)
Lemma SFltb_false_SFleb (a b : spec_float) :
  a <> S754_nan -> b <> S754_nan -> SFltb a b = false -> SFleb b a = true.
Proof.
  unfold SFleb, SFltb, SFcompare.
  destruct a as [sa | sa | | sa ma ea], b as [sb | sb | | sb mb eb];
    try destruct sa; try destruct sb; try reflexivity; try discriminate; try congruence;
    change (Pos.compare_cont Eq) with Pos.compare;
    intros _ _ Hab; cmp_cases; cbn in *; subst;
    try reflexivity; try discriminate; exfalso; lia.
Qed.

(** ** Binary64: rounding of a difference *)

Lemma fexp_eq (e : Z) : fexp prec emax e = Z.max (e - 53) (-1074).
Proof. reflexivity. Qed.

Lemma digits2_pos_bounds (m : positive) :
  2 ^ (Zpos (digits2_pos m) - 1) <= Zpos m < 2 ^ Zpos (digits2_pos m).
Proof.
  induction m as [p IH | p IH |]; cbn [digits2_pos].
  - rewrite Pos2Z.inj_succ, Z.pow_succ_r by lia.
    replace (Z.succ (Zpos (digits2_pos p)) - 1) with (Z.succ (Zpos (digits2_pos p) - 1)) by lia.
    rewrite Z.pow_succ_r by lia. lia.
  - rewrite Pos2Z.inj_succ, Z.pow_succ_r by lia.
    replace (Z.succ (Zpos (digits2_pos p)) - 1) with (Z.succ (Zpos (digits2_pos p) - 1)) by lia.
    rewrite Z.pow_succ_r by lia. lia.
  - cbn. lia.
Qed.

(** A positive number below [2 ^ b] has at most [b] digits. *)
Lemma digits2_pos_le (m : positive) (b : Z) :
  Zpos m < 2 ^ b -> Zpos (digits2_pos m) <= b.
Proof.
  intros Hm. destruct (Z.le_gt_cases (Zpos (digits2_pos m)) b) as [Hle | Hgt]; [exact Hle|].
  exfalso. pose proof (digits2_pos_bounds m) as [Hlo _].
  destruct (Z.lt_ge_cases b 0) as [Hneg | Hpos].
  - rewrite Z.pow_neg_r in Hm by exact Hneg. lia.
  - assert (2 ^ b <= 2 ^ (Zpos (digits2_pos m) - 1)) by (apply Z.pow_le_mono_r; lia). lia.
Qed.

Lemma iter_xO (m d : positive) :
  Zpos (Pos.iter xO m d) = Zpos m * 2 ^ Zpos d
  /\ Zpos (digits2_pos (Pos.iter xO m d)) = Zpos (digits2_pos m) + Zpos d.
Proof.
  induction d as [| d IH] using Pos.peano_ind.
  - cbn [Pos.iter digits2_pos]. rewrite Pos2Z.inj_succ. change (2 ^ 1) with 2.
    rewrite (Pos2Z.inj_xO m). lia.
  - rewrite Pos.iter_succ. cbn [digits2_pos]. destruct IH as [IH1 IH2].
    rewrite (Pos2Z.inj_xO (Pos.iter xO m d)), !Pos2Z.inj_succ, IH1, IH2.
    rewrite Z.pow_succ_r by lia. lia.
Qed.

Lemma shl_align_spec (m : positive) (e e' : Z) :
  snd (shl_align m e e') = Z.min e e'
  /\ Zpos (fst (shl_align m e e')) = Zpos m * 2 ^ (e - Z.min e e')
  /\ Zpos (digits2_pos (fst (shl_align m e e'))) + Z.min e e' = Zpos (digits2_pos m) + e.
Proof.
  unfold shl_align. destruct (e' - e) as [| d | d] eqn:Hd; cbn [fst snd].
  - replace (Z.min e e') with e by lia. rewrite Z.sub_diag. cbn. lia.
  - replace (Z.min e e') with e by lia. rewrite Z.sub_diag. cbn. lia.
  - replace (Z.min e e') with e' by lia.
    destruct (iter_xO m d) as [H1 H2]. rewrite H1, H2.
    replace (e - e') with (Zpos d) by lia. lia.
Qed.

Lemma shr_1_spec (mrs : shr_record) :
  0 <= shr_m mrs -> shr_m (shr_1 mrs) = shr_m mrs / 2 /\ 0 <= shr_m (shr_1 mrs).
Proof.
  destruct mrs as [m r s]. cbn [shr_m]. intros Hm.
  destruct m as [| [p | p |] | p]; cbn [shr_1 shr_m]; try lia.
  - split; [reflexivity | lia].
  - split; [| lia]. apply (Z.div_unique _ _ _ 1); [lia | apply Pos2Z.inj_xI].
  - split; [| lia]. apply (Z.div_unique _ _ _ 0); [lia | rewrite Z.add_0_r; apply Pos2Z.inj_xO].
  - split; [reflexivity | lia].
Qed.

Lemma iter_pos_shr_1 (n : positive) (mrs : shr_record) :
  0 <= shr_m mrs ->
  shr_m (SpecFloat.iter_pos shr_1 n mrs) = shr_m mrs / 2 ^ Zpos n
  /\ 0 <= shr_m (SpecFloat.iter_pos shr_1 n mrs).
Proof.
  revert mrs. induction n as [n IH | n IH |]; intros mrs Hm; cbn [SpecFloat.iter_pos].
  - destruct (shr_1_spec mrs Hm) as [H1 H1'].
    destruct (IH _ H1') as [H2 H2']. destruct (IH _ H2') as [H3 H3'].
    split; [| exact H3']. rewrite H3, H2, H1.
    rewrite !Z.div_div by lia.
    f_equal. rewrite (Pos2Z.inj_xI n).
    replace (2 * Zpos n + 1) with (1 + Zpos n + Zpos n) by lia.
    rewrite !Z.pow_add_r by lia. change (2 ^ 1) with 2. lia.
  - destruct (IH _ Hm) as [H2 H2']. destruct (IH _ H2') as [H3 H3'].
    split; [| exact H3']. rewrite H3, H2.
    rewrite !Z.div_div by lia.
    f_equal. rewrite (Pos2Z.inj_xO n).
    replace (2 * Zpos n) with (Zpos n + Zpos n) by lia.
    rewrite !Z.pow_add_r by lia. lia.
  - destruct (shr_1_spec mrs Hm) as [H1 H1']. split; assumption.
Qed.

Lemma shr_spec (mrs : shr_record) (e n : Z) :
  0 <= shr_m mrs ->
  shr_m (fst (shr mrs e n)) = shr_m mrs / 2 ^ Z.max n 0
  /\ 0 <= shr_m (fst (shr mrs e n))
  /\ snd (shr mrs e n) = e + Z.max n 0
  /\ (n <= 0 -> fst (shr mrs e n) = mrs).
Proof.
  intros Hm. unfold shr. destruct n as [| p | p]; cbn [fst snd].
  - cbn. rewrite Z.div_1_r. repeat split; auto; lia.
  - destruct (iter_pos_shr_1 p mrs Hm) as [H1 H2].
    replace (Z.max (Zpos p) 0) with (Zpos p) by lia.
    repeat split; auto; lia.
  - replace (Z.max (Zneg p) 0) with 0 by lia. cbn. rewrite Z.div_1_r.
    repeat split; auto; lia.
Qed.

Lemma round_nearest_even_bounds (m : Z) (l : location) :
  m <= round_nearest_even m l <= m + 1.
Proof.
  unfold round_nearest_even. destruct l as [| [| |]]; try lia. destruct (Z.even m); lia.
Qed.

(** The value [m * 2 ^ ez], below the float [(mx, ex)], is rounded to zero
    or to a float that is not above [(mx, ex)]. *)
Lemma binary_round_below (m mx : positive) (ez ex : Z) :
  bounded prec emax mx ex = true ->
  ez <= ex ->
  Zpos m < Zpos mx * 2 ^ (ex - ez) ->
  match binary_round prec emax false m ez with
  | S754_zero _ => True
  | S754_finite s m' e' => s = false /\ (e' < ex \/ (e' = ex /\ (m' <= mx)%positive))
  | _ => False
  end.
Proof.
  intros Hb Hez Hlt.
  unfold bounded, canonical_mantissa in Hb. apply andb_true_iff in Hb as [Hcan Hmax].
  apply Z.eqb_eq in Hcan. apply Z.leb_le in Hmax. rewrite fexp_eq in Hcan.
  change (emax - prec) with 971 in Hmax.
  pose proof (digits2_pos_bounds mx) as [_ Hmx].
  set (dmx := Zpos (digits2_pos mx)) in *.
  pose proof (digits2_pos_bounds m) as [Hmlo Hmhi].
  set (dm := Zpos (digits2_pos m)) in *.
  assert (0 < dm) as Hdm by (subst dm; lia).
  assert (0 < dmx) as Hdmx by (subst dmx; lia).
  (* the exponent the value is rounded at *)
  set (e1 := Z.max (dm + ez - 53) (-1074)).
  assert (dm + ez <= dmx + ex) as Hdig.
  { assert (Zpos m < 2 ^ (dmx + (ex - ez))) as Hm2.
    { rewrite Z.pow_add_r by lia. eapply Z.lt_le_trans; [exact Hlt|].
      apply Z.mul_le_mono_nonneg_r; [apply Z.pow_nonneg; lia | lia]. }
    apply digits2_pos_le in Hm2. fold dm in Hm2. lia. }
  assert (e1 <= ex) as He1 by lia.
  unfold binary_round.
  destruct (shl_align_spec m ez (fexp prec emax (Zpos (digits2_pos m) + ez)))
    as (Hea & Hmz & Hdz).
  destruct (shl_align m ez (fexp prec emax (Zpos (digits2_pos m) + ez))) as [mz ea].
  cbn [fst snd] in Hea, Hmz, Hdz. rewrite fexp_eq in Hea, Hmz, Hdz.
  fold dm in Hea, Hmz, Hdz. fold e1 in Hea, Hmz, Hdz.
  unfold binary_round_aux, shr_fexp. cbn [Zdigits2 shr_record_of_loc].
  rewrite !fexp_eq. rewrite Hea in *.
  replace (Zpos (digits2_pos mz) + Z.min ez e1) with (dm + ez) by lia. fold e1.
  set (R := {| shr_m := Zpos mz; shr_r := false; shr_s := false |}).
  destruct (shr_spec R (Z.min ez e1) (e1 - Z.min ez e1)) as (Hs1 & Hs1' & Hs2 & Hs3);
    [cbn; lia|].
  destruct (shr R (Z.min ez e1) (e1 - Z.min ez e1)) as [mrs' e'].
  cbn [fst snd] in Hs1, Hs1', Hs2, Hs3.
  assert (e' = e1) as -> by lia.
  set (m1 := round_nearest_even (shr_m mrs') (loc_of_shr_record mrs')).
  set (X1 := Zpos mx * 2 ^ (ex - e1)).
  assert (0 <= m1 <= X1) as [Hm1 Hm1X].
  { pose proof (round_nearest_even_bounds (shr_m mrs') (loc_of_shr_record mrs')) as Hr.
    fold m1 in Hr. split; [lia|].
    destruct (Z.le_gt_cases e1 ez) as [Hle | Hgt].
    - (* no shift: the value is kept exactly *)
      assert (mrs' = R) as Heq by (apply Hs3; lia).
      subst m1. rewrite Heq. subst R. cbn [shr_m loc_of_shr_record round_nearest_even].
      rewrite Hmz. replace (Z.min ez e1) with e1 by lia.
      subst X1. replace (ex - e1) with ((ex - ez) + (ez - e1)) by lia.
      rewrite Z.pow_add_r by lia.
      assert (0 < 2 ^ (ez - e1)) by (apply Z.pow_pos_nonneg; lia). nia.
    - replace (Z.min ez e1) with ez in * by lia.
      replace (ez - ez) with 0 in Hmz by lia. rewrite Z.mul_1_r in Hmz.
      subst R. cbn [shr_m] in Hs1. rewrite Hmz in Hs1.
      replace (Z.max (e1 - ez) 0) with (e1 - ez) in Hs1 by lia.
      assert (0 < 2 ^ (e1 - ez)) as Hp by (apply Z.pow_pos_nonneg; lia).
      assert (Zpos m < X1 * 2 ^ (e1 - ez)) as Hlt'.
      { subst X1. rewrite <- Z.mul_assoc, <- Z.pow_add_r by lia.
        replace (ex - e1 + (e1 - ez)) with (ex - ez) by lia. exact Hlt. }
      assert (Zpos m / 2 ^ (e1 - ez) < X1) by (apply Z.div_lt_upper_bound; lia).
      lia. }
  clearbody m1. clear Hs1 Hs1' Hs2 Hs3 mrs' R Hmz Hdz Hea. rewrite fexp_eq.
  (* the second normalisation *)
  set (R2 := {| shr_m := m1; shr_r := false; shr_s := false |}).
  destruct (shr_spec R2 e1 (Z.max (Zdigits2 m1 + e1 - 53) (-1074) - e1)) as (Ht1 & Ht1' & Ht2 & _);
    [cbn; lia|].
  destruct (shr R2 e1 (Z.max (Zdigits2 m1 + e1 - 53) (-1074) - e1)) as [mrs'' e''].
  cbn [fst snd] in Ht1, Ht1', Ht2. subst R2. cbn [shr_m] in Ht1.
  destruct (shr_m mrs'') as [| m'' | m''] eqn:Hm''; [exact I | | lia].
  assert (e1 <= e'') as He'' by lia.
  assert (0 < m1) as Hm1pos.
  { destruct (Z.eq_dec m1 0) as [-> | ?]; [| lia]. rewrite Z.div_0_l in Ht1; [lia|].
    apply Z.pow_nonzero; lia. }
  destruct m1 as [| p1 | p1]; try lia. cbn [Zdigits2] in Ht1, Ht2.
  pose proof (digits2_pos_bounds p1) as [Hp1lo _].
  set (d1 := Zpos (digits2_pos p1)) in *.
  assert (d1 + e1 <= dmx + ex) as Hd1.
  { assert (Zpos p1 < 2 ^ (dmx + (ex - e1))) as Hp2.
    { rewrite Z.pow_add_r by lia. eapply Z.le_lt_trans; [exact Hm1X|]. subst X1.
      apply Z.mul_lt_mono_pos_r; [apply Z.pow_pos_nonneg; lia | lia]. }
    apply digits2_pos_le in Hp2. fold d1 in Hp2. lia. }
  assert (e'' <= ex) as Hle by lia.
  replace (e'' <=? emax - prec) with true by (symmetry; apply Z.leb_le; change (emax - prec) with 971; lia).
  split; [reflexivity|].
  destruct (Z.eq_dec e'' ex) as [-> | Hne]; [right; split; [reflexivity|] | left; lia].
  assert (Z.max (Z.max (d1 + e1 - 53) (-1074) - e1) 0 = ex - e1) as Hn2 by lia.
  rewrite Hn2 in Ht1.
  assert (Zpos m'' <= Zpos mx); [| lia].
  rewrite Ht1. subst X1.
  assert (0 < 2 ^ (ex - e1)) by (apply Z.pow_pos_nonneg; lia).
  apply Z.div_le_upper_bound; lia.
Qed.

Lemma binary_round_sign (sx : bool) (m : positive) (e : Z) :
  match binary_round prec emax sx m e with
  | S754_zero s | S754_infinity s | S754_finite s _ _ => s = sx
  | S754_nan => True
  end.
Proof.
  unfold binary_round. destruct (shl_align _ _ _) as [mz ez].
  unfold binary_round_aux. destruct (shr_fexp _ _ _ _ _) as [mrs' e'].
  destruct (shr_fexp _ _ _ _ _) as [mrs'' e''].
  destruct (shr_m mrs''); [reflexivity | | exact I].
  destruct (_ <=? _); reflexivity.
Qed.

(** Subtracting a float that is not negative from one that is not negative
    gives, when the difference is positive, a float that is not above the
    first. *)
Lemma SFsub_le (x y : spec_float) :
  valid_binary x = true ->
  SFleb (S754_zero false) x = true ->
  SFleb (S754_zero false) y = true ->
  SFltb (S754_zero false) (SF64sub x y) = true ->
  SFleb (SF64sub x y) x = true.
Proof.
  intros Hvalid Hx Hy Hpos. unfold SF64sub in *.
  destruct x as [sx | sx | | sx mx ex]; try discriminate.
  - destruct y as [sy | sy | | sy my ey]; try discriminate;
      destruct sx, sy; try discriminate.
  - destruct sx; [discriminate|].
    destruct y as [sy | sy | | sy my ey]; try discriminate;
      try destruct sy; try discriminate; reflexivity.
  - destruct sx; [discriminate|].
    destruct y as [sy | sy | | sy my ey]; try discriminate.
    + cbn [SFsub]. apply SFleb_refl. discriminate.
    + destruct sy; discriminate.
    + destruct sy; [discriminate|]. cbn [SFsub cond_Zopp] in *.
      destruct (shl_align_spec mx ex (Z.min ex ey)) as (_ & Hmx & _).
      destruct (shl_align_spec my ey (Z.min ex ey)) as (_ & Hmy & _).
      replace (Z.min ex (Z.min ex ey)) with (Z.min ex ey) in Hmx by lia.
      set (mx' := Zpos (fst (shl_align mx ex (Z.min ex ey)))) in *.
      set (my' := Zpos (fst (shl_align my ey (Z.min ex ey)))) in *.
      assert (0 < my') as Hmy' by (subst my'; lia).
      destruct (mx' - my') as [| m | m] eqn:HM; cbn [binary_normalize] in *.
      * discriminate.
      * pose proof (binary_round_below m mx (Z.min ex ey) ex Hvalid ltac:(lia) ltac:(lia)) as Hr.
        destruct (binary_round prec emax false m (Z.min ex ey)) as [s | s | | s m' e'];
          try contradiction; try discriminate.
        destruct Hr as [-> Hr]. unfold SFleb, SFcompare.
        change (Pos.compare_cont Eq) with Pos.compare.
        destruct Hr as [Hlt | [-> Hle]].
        -- rewrite (proj2 (Z.compare_lt_iff _ _) Hlt). reflexivity.
        -- rewrite Z.compare_refl. apply Pos.compare_le_iff in Hle.
           destruct (m' ?= mx)%positive; try reflexivity. contradiction.
      * pose proof (binary_round_sign true m (Z.min ex ey)) as Hs.
        destruct (binary_round prec emax true m (Z.min ex ey)) as [s | s | | s m' e'];
          try discriminate; subst s; discriminate.
Qed.

Lemma Prim2SF_zero : Prim2SF 0 = S754_zero false.
Proof. reflexivity. Qed.

Lemma leb_trans (a b c : float) :
  (a <=? b)%float = true -> (b <=? c)%float = true -> (a <=? c)%float = true.
Proof. rewrite !leb_spec. apply SFleb_trans. Qed.

Lemma ltb_leb (a b : float) : (a <? b)%float = true -> (a <=? b)%float = true.
Proof. rewrite ltb_spec, leb_spec. apply SFltb_SFleb. Qed.

Lemma leb_ltb_false (a b : float) : (a <=? b)%float = true -> (b <? a)%float = false.
Proof. rewrite leb_spec, ltb_spec. apply SFleb_SFltb_false. Qed.

(** [h - d <= h] for [h >= 0] and [d >= 0], when the difference is positive. *)
Lemma sub_nonneg_le (h d : float) :
  (0 <=? h)%float = true -> (0 <=? d)%float = true ->
  (0 <? h - d)%float = true ->
  (h - d <=? h)%float = true.
Proof.
  rewrite !leb_spec, ltb_spec, sub_spec, Prim2SF_zero.
  apply SFsub_le, Prim2SF_valid.
Qed.

Lemma fmax_0 (r : float) :
  (0 <=? fmax 0 r)%float = true
  /\ ((0 <? r)%float = true -> fmax 0 r = r)
  /\ ((0 <? r)%float = false -> fmax 0 r = 0%float).
Proof.
  unfold fmax. destruct (0 <? r)%float eqn:Hr.
  - split; [now apply ltb_leb|]. split; [reflexivity | discriminate].
  - split; [reflexivity|]. split; [discriminate | reflexivity].
Qed.


(** The size of a debris burst. *)

Lemma burst_divisor (n : nat) : (1 <= 1.0 + inject_Z (Z.of_nat n) / 20)%Q.
Proof.
  assert (0 <= inject_Z (Z.of_nat n) / 20)%Q as Hq.
  { apply Qle_shift_div_l; [reflexivity|]. unfold Qle. cbn. lia. }
  apply (Qle_trans _ (1.0 + 0)%Q); [unfold Qle; cbn; lia|].
  apply Qplus_le_r. exact Hq.
Qed.

Lemma burst_divisor_mono (n m : nat) :
  (n <= m)%nat ->
  (1.0 + inject_Z (Z.of_nat n) / 20 <= 1.0 + inject_Z (Z.of_nat m) / 20)%Q.
Proof.
  intros Hnm.
  assert (inject_Z (Z.of_nat n) <= inject_Z (Z.of_nat m))%Q as Hq
    by (rewrite <- Zle_Qle; lia).
  apply Qplus_le_r. unfold Qdiv. apply Qmult_le_compat_r; [exact Hq | discriminate].
Qed.

Lemma burst_rate_antitone (a b : Q) :
  (1 <= a)%Q -> (a <= b)%Q -> (1200 * (1.0 / b) <= 1200 * (1.0 / a))%Q.
Proof.
  intros Ha Hab.
  assert (1.0 / b <= 1.0 / a)%Q as Hinv.
  { apply Qle_shift_div_r; [lra|].
    assert (1.0 / a * b == b / a)%Q as -> by (field; lra).
    apply Qle_shift_div_l; lra. }
  set (u := (1.0 / b)%Q) in *. set (v := (1.0 / a)%Q) in *. lra.
Qed.

Lemma num_particles_antitone (n m : nat) :
  (n <= m)%nat -> (num_particles m <= num_particles n)%nat.
Proof.
  intros Hnm. unfold num_particles.
  assert (Qfloor (1200 * (1.0 / (1.0 + inject_Z (Z.of_nat m) / 20)))
          <= Qfloor (1200 * (1.0 / (1.0 + inject_Z (Z.of_nat n) / 20))))%Z as Hmono.
  { apply Qfloor_resp_le.
    apply burst_rate_antitone; [apply burst_divisor | now apply burst_divisor_mono]. }
  lia.
Qed.

Lemma num_particles_range (n : nat) : (250 <= num_particles n <= 1200)%nat.
Proof.
  unfold num_particles.
  assert (Qfloor (1200 * (1.0 / (1.0 + inject_Z (Z.of_nat n) / 20))) <= 1200)%Z as Hup.
  { rewrite <- (Qfloor_Z 1200). apply Qfloor_resp_le.
    eapply Qle_trans; [apply (burst_rate_antitone 1); [lra | apply burst_divisor]|].
    unfold Qle. cbn. lia. }
  lia.
Qed.

(** ** One call of [hit_wall] *)

Ltac bd :=
  repeat match goal with
  | |- context [bool_decide ?P] =>
      first [ rewrite (bool_decide_eq_true_2 P) by (clear; intuition congruence)
            | rewrite (bool_decide_eq_false_2 P) by (clear; intuition congruence) ]
  end.

Ltac world_fields :=
  cbn [world event_bus sounds_played wall_states wall_health wall_cracks
       destroyed_walls debris_pieces world_seed pillar_cache wall_cache zone_cache
       destroyed_pillars pre_damaged_walls _spawned_rubble emitted _subscribers emit
       set_wall_states set_wall_health set_wall_cracks set_destroyed_walls
       set_debris_pieces].

Ltac hit_finish :=
  repeat match goal with
  | |- _ /\ _ => split
  | |- forall _, _ => intro
  end;
  rewrite ?spawn_loop_replicate, ?app_nil_r;
  rewrite ?lookup_insert_eq;
  rewrite ?lookup_insert_ne by congruence;
  try reflexivity; try congruence;
  try (cbn [default from_option]; unfold id;
       match goal with uv : option (Q * Q) |- _ => destruct uv as [[? ?]|] end;
       cbn [fmap option_fmap option_map fst snd]; rewrite <- ?app_assoc; reflexivity).

Lemma hit_wall_effect s k d uv :
  k ∉ destroyed_walls (world s) ->
  (is_Some (wall_health (world s) !! k) -> is_Some (wall_states (world s) !! k)) ->
  wp (hit_wall k d uv) s (hit_effect k d uv s).
Proof.
  intros Hnd Hst.
  unfold hit_wall, hit_effect, stored_state, stored_health. cbv zeta.
  wp_steps. rewrite bool_decide_eq_false_2 by assumption.
  destruct (wall_health (world s) !! k) as [h|] eqn:Hh.
  - destruct Hst as [st Hst]; [eauto|]. rewrite Hst.
    cbn [default from_option]. unfold id.
    wp_steps. eapply wp_subscript; [eassumption|]. wp_steps.
    eapply wp_subscript; [eassumption|]. wp_steps.
    eapply wp_subscript; [apply lookup_insert_eq|]. wp_steps.
    unfold _add_crack, _spawn_impact_debris, _destroy_wall_internal, hit_events, hit_debris,
      hit_cracks, get_wall_cracks.
    destruct (state_of_health (fmax 0.0 (h - d))) eqn:Hns; destruct st; bd; cbv zeta;
      wp_steps; world_fields; hit_finish.
  - wp_steps. eapply wp_subscript; [apply lookup_insert_eq|]. wp_steps.
    eapply wp_subscript; [apply lookup_insert_eq|]. wp_steps.
    eapply wp_subscript; [apply lookup_insert_eq|]. wp_steps.
    cbn [default from_option].
    unfold _add_crack, _spawn_impact_debris, _destroy_wall_internal, hit_events, hit_debris,
      hit_cracks, get_wall_cracks.
    destruct (state_of_health (fmax 0.0 (1.0 - d))) eqn:Hns; bd; cbv zeta;
      wp_steps; world_fields; hit_finish.
Qed.

(** [hit_wall] on a key that is not destroyed, when the new state is not
    [DESTROYED]: the call returns [False] and the key stays hittable. *)
Lemma hit_wall_survives s k d uv h st :
  k ∉ destroyed_walls (world s) ->
  (is_Some (wall_health (world s) !! k) -> is_Some (wall_states (world s) !! k)) ->
  stored_health (world s) k = h ->
  stored_state (world s) k = st ->
  let nh := fmax 0.0 (h - d) in
  state_of_health nh ≠ DESTROYED ->
  exists s',
    hit_wall k d uv s = Some (false, s')
    /\ hit_effect k d uv s false s'
    /\ (k ∉ destroyed_walls (world s'))
    /\ wall_health (world s') !! k = Some nh
    /\ wall_states (world s') !! k = Some (state_of_health nh)
    /\ get_wall_health (world s') k = nh
    /\ get_wall_state (world s') k = state_of_health nh
    /\ emitted (event_bus s')
       = emitted (event_bus s) ++ hit_events k st (state_of_health nh) nh.
Proof.
  intros Hnd Hst <- <- nh Hns.
  destruct (hit_wall_effect s k d uv Hnd Hst) as (b & s' & Hrun & Heff).
  pose proof Heff as (Hb & Hs & Hh & Hd & Hev & _).
  fold nh in Hb, Hs, Hh, Hev.
  assert (b = false) as ->.
  { rewrite Hb. apply bool_decide_eq_false_2. intros [? _]. contradiction. }
  exists s'. unfold get_wall_health, get_wall_state.
  rewrite Hd. rewrite bool_decide_eq_false_2 by assumption. rewrite Hh, Hs.
  split; [exact Hrun|]. split; [exact Heff|]. split; [exact Hnd|].
  split; [reflexivity|]. split; [reflexivity|]. split; [reflexivity|].
  split; [reflexivity | exact Hev].
Qed.

(** [hit_wall] on a key that is not destroyed, when the new state is
    [DESTROYED] and the stored one was not: the call returns [True]. *)
Lemma hit_wall_destroys s k d uv h st :
  k ∉ destroyed_walls (world s) ->
  (is_Some (wall_health (world s) !! k) -> is_Some (wall_states (world s) !! k)) ->
  stored_health (world s) k = h ->
  stored_state (world s) k = st ->
  let nh := fmax 0.0 (h - d) in
  state_of_health nh = DESTROYED ->
  st ≠ DESTROYED ->
  exists s',
    hit_wall k d uv s = Some (true, s')
    /\ hit_effect k d uv s true s'
    /\ k ∈ destroyed_walls (world s')
    /\ get_wall_health (world s') k = 0.0%float
    /\ get_wall_state (world s') k = DESTROYED
    /\ emitted (event_bus s')
       = emitted (event_bus s) ++ [wall_event WALL_DESTROYED k (_get_wall_center k) None].
Proof.
  intros Hnd Hst <- <- nh Hns Hold.
  destruct (hit_wall_effect s k d uv Hnd Hst) as (b & s' & Hrun & Heff).
  pose proof Heff as (Hb & Hs & Hh & Hd & Hev & _).
  fold nh in Hb, Hs, Hh, Hev.
  assert (b = true) as ->.
  { rewrite Hb. apply bool_decide_eq_true_2. split; assumption. }
  exists s'. unfold get_wall_health, get_wall_state.
  assert (k ∈ {[k]} ∪ destroyed_walls (world s)) as Hin
    by (apply elem_of_union_l, elem_of_singleton; reflexivity).
  rewrite Hd. rewrite bool_decide_eq_true_2 by exact Hin.
  split; [exact Hrun|]. split; [exact Heff|]. split; [exact Hin|].
  split; [reflexivity|]. split; [reflexivity|].
  rewrite Hev. unfold hit_events. rewrite Hns.
  rewrite bool_decide_eq_true_2 by congruence. reflexivity.
Qed.

Lemma stored_of_lookup w k h st :
  wall_health w !! k = Some h -> wall_states w !! k = Some st ->
  stored_health w k = h /\ stored_state w k = st.
Proof. intros Hh Hs. unfold stored_health, stored_state. now rewrite Hh, Hs. Qed.

Lemma state_of_health_thresholds (h : float) :
  ((h <=? 0)%float = true -> state_of_health h = DESTROYED)
  /\ ((0 <? h)%float = true -> (h <=? 0.25)%float = true -> state_of_health h = FRACTURED)
  /\ ((0.25 <? h)%float = true -> (h <=? 0.6)%float = true -> state_of_health h = CRACKED)
  /\ ((0.6 <? h)%float = true -> state_of_health h = INTACT).
Proof.
  pose proof (leb_ltb_false h 0) as L0.
  pose proof (leb_ltb_false h 0.25) as L1.
  pose proof (leb_ltb_false h 0.6) as L2.
  pose proof (fun H => leb_trans h 0 0.25 H eq_refl) as U1.
  pose proof (fun H => leb_trans h 0.25 0.6 H eq_refl) as U2.
  unfold state_of_health.
  destruct (h <=? 0)%float, (h <=? 0.25)%float, (h <=? 0.6)%float;
    repeat split; intros; try reflexivity; exfalso; intuition congruence.
Qed.

(** ** C10: hitting a destroyed wall *)

(** C10.  For a wall key in the destroyed set, [hit_wall] returns [False]
    and the whole program state (health, states, cracks, debris, the event
    bus) is the one it started from. *)
Theorem hit_wall_destroyed_is_noop (s : St) (k : WallKey) (damage : float)
    (hit_uv : option (Q * Q)) :
  k ∈ destroyed_walls (world s) ->
  hit_wall k damage hit_uv s = Some (false, s).
Proof.
  intros Hd. unfold hit_wall. unfold_M.
  rewrite bool_decide_eq_true_2 by assumption. reflexivity.
Qed.

Lemma hit_wall_destroyed_is_noop_witness :
  hit_wall wall_0 0.25%float None st_wall_0_destroyed = Some (false, st_wall_0_destroyed).
Proof.
  apply (hit_wall_destroyed_is_noop st_wall_0_destroyed wall_0 0.25%float None).
  apply (bool_decide_unpack (wall_0 ∈ destroyed_walls (world st_wall_0_destroyed))).
  vm_compute. exact I.
Defined.

(** ** C1: four hits of 0.25 on a fresh wall *)

(** C1.  On a wall that was never hit and is not destroyed, four calls of
    [hit_wall] with damage 0.25 return False, False, False, True; the health
    read back goes 1.0, 0.75, 0.5, 0.25, 0.0 and the state Intact, Intact,
    Cracked, Fractured, Destroyed; the calls emit Cracked, Fractured and
    Destroyed, so exactly one Destroyed notification.  The state of a health
    is Destroyed up to 0, Fractured up to 0.25, Cracked up to 0.6 (bounds
    included) and Intact above.  Health and damage are binary64: the
    differences of the scenario are computed as the program computes
    them. *)
Theorem hit_wall_four_hits (s : St) (k : WallKey) (hit_uv : option (Q * Q)) :
  k ∉ destroyed_walls (world s) ->
  wall_health (world s) !! k = None ->
  wall_states (world s) !! k = None ->
  four_hits k hit_uv s
  /\ (forall h : float,
        ((h <=? 0)%float = true -> state_of_health h = DESTROYED)
        /\ ((0 <? h)%float = true -> (h <=? 0.25)%float = true ->
            state_of_health h = FRACTURED)
        /\ ((0.25 <? h)%float = true -> (h <=? 0.6)%float = true ->
            state_of_health h = CRACKED)
        /\ ((0.6 <? h)%float = true -> state_of_health h = INTACT)).
Proof.
  intros Hnd Hh Hs. split; [| apply state_of_health_thresholds].
  destruct (hit_wall_survives s k 0.25%float hit_uv 1.0%float INTACT) as (s1 & R1 & _ & D1 & H1 & S1 & GH1 & GS1 & E1);
    [assumption | rewrite Hh; intros [? ?]; discriminate
    | unfold stored_health; now rewrite Hh | unfold stored_state; now rewrite Hh
    | vm_compute; discriminate |].
  destruct (stored_of_lookup _ _ _ _ H1 S1) as [SH1 SS1].
  destruct (hit_wall_survives s1 k 0.25%float hit_uv _ _ D1 ltac:(intros _; eauto) SH1 SS1)
    as (s2 & R2 & _ & D2 & H2 & S2 & GH2 & GS2 & E2); [vm_compute; discriminate|].
  destruct (stored_of_lookup _ _ _ _ H2 S2) as [SH2 SS2].
  destruct (hit_wall_survives s2 k 0.25%float hit_uv _ _ D2 ltac:(intros _; eauto) SH2 SS2)
    as (s3 & R3 & _ & D3 & H3 & S3 & GH3 & GS3 & E3); [vm_compute; discriminate|].
  destruct (stored_of_lookup _ _ _ _ H3 S3) as [SH3 SS3].
  destruct (hit_wall_destroys s3 k 0.25%float hit_uv _ _ D3 ltac:(intros _; eauto) SH3 SS3)
    as (s4 & R4 & _ & D4 & GH4 & GS4 & E4); [vm_compute; reflexivity | vm_compute; discriminate |].
  exists s1, s2, s3, s4.
  eexists. split; [exact R1|]. split; [exact R2|]. split; [exact R3|]. split; [exact R4|].
  split.
  { rewrite GH1, GH2, GH3, GH4. unfold get_wall_health.
    rewrite bool_decide_eq_false_2 by assumption. rewrite Hh.
    repeat split; vm_compute; reflexivity. }
  rewrite GS1, GS2, GS3, GS4. unfold get_wall_state at 1.
  rewrite bool_decide_eq_false_2 by assumption. rewrite Hs.
  split; [reflexivity|]. split; [vm_compute; reflexivity|].
  split; [vm_compute; reflexivity|]. split; [vm_compute; reflexivity|].
  split; [reflexivity|]. split.
  { rewrite E4, E3, E2, E1. rewrite <- !app_assoc. reflexivity. }
  split; vm_compute; reflexivity.
Qed.

Lemma hit_wall_four_hits_witness :
  four_hits wall_0 None (St_init 42)
  /\ (forall h : float,
        ((h <=? 0)%float = true -> state_of_health h = DESTROYED)
        /\ ((0 <? h)%float = true -> (h <=? 0.25)%float = true ->
            state_of_health h = FRACTURED)
        /\ ((0.25 <? h)%float = true -> (h <=? 0.6)%float = true ->
            state_of_health h = CRACKED)
        /\ ((0.6 <? h)%float = true -> state_of_health h = INTACT)).
Proof.
  apply (hit_wall_four_hits (St_init 42) wall_0 None).
  - simpl. apply not_elem_of_empty.
  - reflexivity.
  - reflexivity.
Defined.

(** ** C4: health and state under repeated hits *)

Lemma state_of_health_antitone (a b : float) :
  (a <=? b)%float = true -> (rank (state_of_health b) <= rank (state_of_health a))%nat.
Proof.
  intros Hab.
  pose proof (fun c => leb_trans a b c Hab) as Hdown.
  pose proof (fun H => leb_trans a 0 0.25 H eq_refl) as U1.
  pose proof (fun H => leb_trans a 0.25 0.6 H eq_refl) as U2.
  pose proof (Hdown 0%float) as D0. pose proof (Hdown 0.25%float) as D1.
  pose proof (Hdown 0.6%float) as D2.
  unfold state_of_health.
  destruct (b <=? 0)%float, (b <=? 0.25)%float, (b <=? 0.6)%float,
           (a <=? 0)%float, (a <=? 0.25)%float, (a <=? 0.6)%float;
    cbn [rank]; try lia; exfalso; intuition congruence.
Qed.

(** The reading of a consistent wall: health in range, and the state read
    is the state of the health read. *)
Lemma reading_ok s k :
  wall_ok (world s) k ->
  health_in_range (reading s k)
  /\ (k ∉ destroyed_walls (world s) ->
      get_wall_health (world s) k = stored_health (world s) k
      /\ (0 <=? stored_health (world s) k)%float = true
      /\ (stored_health (world s) k <=? 1)%float = true
      /\ get_wall_state (world s) k = state_of_health (stored_health (world s) k)
      /\ stored_state (world s) k = state_of_health (stored_health (world s) k)).
Proof.
  unfold wall_ok, health_in_range, reading, get_wall_health, get_wall_state,
    stored_health, stored_state.
  cbn [fst snd]. intros Hok.
  destruct (wall_health (world s) !! k) as [h|] eqn:Hh.
  - destruct Hok as (H0 & H1 & Hs). rewrite Hs. cbn [default from_option]. unfold id.
    split.
    + case_bool_decide; [split; reflexivity | split; assumption].
    + intros Hnd. rewrite !bool_decide_eq_false_2 by assumption. repeat split; assumption.
  - rewrite Hok. cbn [default from_option].
    split.
    + case_bool_decide; split; reflexivity.
    + intros Hnd. rewrite !bool_decide_eq_false_2 by assumption.
      repeat split; reflexivity.
Qed.

(** The health [hit_wall] stores: not negative, and not above the health
    it was computed from, whatever the rounding of the difference. *)
Lemma new_health_le (h d : float) :
  (0 <=? h)%float = true -> (0 <=? d)%float = true ->
  (0 <=? fmax 0 (h - d))%float = true /\ (fmax 0 (h - d) <=? h)%float = true.
Proof.
  intros Hh Hd. destruct (fmax_0 (h - d)) as (H0 & Hpos & Hneg).
  split; [exact H0|].
  destruct (0 <? h - d)%float eqn:Hr.
  - rewrite (Hpos eq_refl). now apply sub_nonneg_le.
  - rewrite (Hneg eq_refl). exact Hh.
Qed.

(** One call on a consistent wall with non-negative damage. *)
Lemma hit_wall_wears s k d uv :
  wall_ok (world s) k ->
  (0 <=? d)%float = true ->
  exists b s',
    hit_wall k d uv s = Some (b, s')
    /\ wall_ok (world s') k
    /\ wears (reading s k) (b, get_wall_health (world s') k, get_wall_state (world s') k)
    /\ health_in_range (reading s' k).
Proof.
  intros Hok Hd.
  destruct (decide (k ∈ destroyed_walls (world s))) as [Hin | Hnd].
  { exists false, s. split; [now apply hit_wall_destroyed_is_noop|].
    split; [assumption|]. split; [| now apply reading_ok].
    unfold wears, reading, get_wall_health. cbn [fst snd].
    rewrite bool_decide_eq_true_2 by assumption. split; [reflexivity | lia]. }
  destruct (reading_ok s k Hok) as [_ Hr]. destruct (Hr Hnd) as (Hgh & H0 & H1 & Hgs & Hss).
  assert (is_Some (wall_health (world s) !! k) -> is_Some (wall_states (world s) !! k)) as Hst.
  { unfold wall_ok in Hok. intros [h Hh]. rewrite Hh in Hok. destruct Hok as (_ & _ & ->). eauto. }
  destruct (hit_wall_effect s k d uv Hnd Hst) as (b & s' & Hrun & Heff).
  destruct Heff as (Hb & Hs' & Hh' & Hd' & _).
  set (oh := stored_health (world s) k) in *.
  set (nh := fmax 0.0 (oh - d)) in *.
  destruct (new_health_le oh d H0 Hd) as [Hn0 Hle]. fold nh in Hn0, Hle.
  assert ((nh <=? 1)%float = true) as Hn1 by (eapply leb_trans; eassumption).
  assert (wall_ok (world s') k) as Hok'.
  { unfold wall_ok. rewrite Hh', Hs'. destruct b.
    - symmetry in Hb. apply bool_decide_eq_true_1 in Hb. destruct Hb as [-> _].
      repeat split; reflexivity.
    - repeat split; assumption. }
  exists b, s'. split; [exact Hrun|]. split; [exact Hok'|].
  split; [| now apply reading_ok].
  unfold wears, reading. cbn [fst snd]. rewrite Hgh, Hgs. fold oh.
  unfold get_wall_health, get_wall_state. rewrite Hd', Hh', Hs'.
  cbn [default from_option]. unfold id. destruct b.
  - rewrite !bool_decide_eq_true_2
      by (apply elem_of_union_l, elem_of_singleton; reflexivity).
    split; [exact H0 |]. destruct (state_of_health oh); cbn [rank]; lia.
  - rewrite !bool_decide_eq_false_2 by assumption.
    split; [assumption | now apply state_of_health_antitone].
Qed.

(** C4.  From a state in which the wall's damage record is consistent
    (never hit, or a health in [0, 1] stored with its state), every sequence
    of [hit_wall] calls with damages that are not negative (floats [d] with
    [0 <= d], so neither negative nor NaN) runs to the end, every health
    read back is in [0, 1], and from each reading to the next the health
    does not increase and the state does not move backward in the order
    Intact, Cracked, Fractured, Breaking, Destroyed.  Health and damage are
    binary64 floats and [old_health - damage] is the rounded difference of
    the program: the proof rests on the rounding of a subtraction never
    exceeding its first operand. *)
Theorem hit_sequence_wears (s : St) (k : WallKey) (hits : list (float * option (Q * Q))) :
  wall_ok (world s) k ->
  Forall (fun hit => (0 <=? fst hit)%float = true) hits ->
  sequence_wears k hits s.
Proof.
  unfold sequence_wears. revert s. induction hits as [| [d uv] hits IH]; intros s Hok Hpos.
  - exists [], s. cbn. repeat split; try assumption.
    constructor; [now apply reading_ok | constructor].
  - inversion Hpos as [| ? ? Hd Hrest]; subst. cbn [fst] in Hd.
    destruct (hit_wall_wears s k d uv Hok Hd) as (b & s1 & Hrun & Hok1 & Hw & Hr1).
    destruct (IH s1 Hok1 Hrest) as (obs & s' & Hseq & Hlen & Hch & Hall & Hok').
    exists ((b, get_wall_health (world s1) k, get_wall_state (world s1) k) :: obs), s'.
    cbn [hit_sequence]. rewrite Hrun, Hseq.
    split; [reflexivity|]. split; [cbn; now rewrite Hlen|].
    split.
    { cbn [chain]. split; [exact Hw|].
      destruct obs as [| o obs']; [exact I|]. cbn [chain] in Hch |- *.
      destruct Hch as [Hw1 Hch]. split; [| exact Hch].
      unfold wears, reading in *. cbn [fst snd] in *. exact Hw1. }
    split; [| exact Hok'].
    constructor; [now apply reading_ok|].
    inversion Hall as [| ? ? Hr Hall']; subst.
    constructor; [exact Hr1 | exact Hall'].
Qed.

(** Five hits of 0.2, then one of 0.1, an infinite one and one of 0: in
    binary64 the fifth hit leaves a health of about 5.55e-17, the sixth
    destroys the wall. *)
Lemma hit_sequence_wears_witness :
  sequence_wears wall_0
    [(0.2%float, None); (0.2%float, Some (0.5%Q, 0.5%Q)); (0.2%float, None);
     (0.2%float, None); (0.2%float, None); (0.1%float, None);
     (infinity, None); (0%float, None)] (St_init 42).
Proof.
  apply (hit_sequence_wears (St_init 42) wall_0).
  - reflexivity.
  - repeat constructor.
Defined.

(** ** C7: notifications of a hit that leaves the state unchanged *)

Lemma get_wall_state_stored w k :
  k ∉ destroyed_walls w -> wall_recorded w k ->
  get_wall_state w k = stored_state w k.
Proof.
  intros Hnd [Hr1 Hr2]. unfold get_wall_state, stored_state.
  rewrite bool_decide_eq_false_2 by assumption.
  destruct (wall_health w !! k) as [h|] eqn:Hh; [reflexivity|].
  destruct (wall_states w !! k) as [st|] eqn:Hs; [| reflexivity].
  destruct Hr2 as [? ?]; [eauto | discriminate].
Qed.

(** C7, as the code has it.  On a wall that is not destroyed, a [hit_wall]
    call that leaves the damage state unchanged returns False; when that
    state is not Intact it emits one WALL_HIT notification (wall centre, new
    health) and appends a burst of 20 impact particles; when the state is
    Intact it emits nothing and spawns nothing.  The call returns True only
    when it moved the wall into the destroyed set from a state that was not
    Destroyed. *)
Theorem hit_wall_unchanged_state (s : St) (k : WallKey) (d : float) (hit_uv : option (Q * Q)) :
  k ∉ destroyed_walls (world s) ->
  wall_recorded (world s) k ->
  hit_notifies k d hit_uv s.
Proof.
  intros Hnd Hrec.
  pose proof (get_wall_state_stored _ _ Hnd Hrec) as Hold.
  destruct (hit_wall_effect s k d hit_uv Hnd (proj1 Hrec)) as (b & s' & Hrun & Heff).
  destruct Heff as (Hb & Hs' & Hh' & Hd' & Hev & Hdeb & _).
  set (nh := fmax 0.0 (stored_health (world s) k - d)) in *.
  set (ns := state_of_health nh) in *.
  exists b, s'. split; [exact Hrun|].
  rewrite Hold. unfold get_wall_state, get_wall_health.
  rewrite Hd', Hs', Hh'. cbn [default from_option]. unfold id.
  destruct b.
  - symmetry in Hb. apply bool_decide_eq_true_1 in Hb. destruct Hb as [Hns Hne].
    assert (k ∈ {[k]} ∪ destroyed_walls (world s)) as Hin
      by (apply elem_of_union_l, elem_of_singleton; reflexivity).
    rewrite !bool_decide_eq_true_2 by exact Hin.
    split; [intros Heq; symmetry in Heq; contradiction|].
    intros _. split; [exact Hne|]. split; [reflexivity | exact Hin].
  - rewrite !bool_decide_eq_false_2 by assumption.
    split; [| intros; discriminate].
    intros Hsame. split; [reflexivity|].
    rewrite Hev, Hdeb. unfold hit_events, hit_debris.
    rewrite !(bool_decide_eq_false_2 (ns ≠ _)) by (intros Hne; apply Hne; exact Hsame).
    split.
    + intros Hni. rewrite !bool_decide_eq_true_2 by exact Hni. split; reflexivity.
    + intros Hi. rewrite !bool_decide_eq_false_2 by (intros Hne; apply Hne; exact Hi).
      rewrite !app_nil_r. split; reflexivity.
Qed.

Lemma hit_wall_unchanged_state_witness :
  hit_notifies wall_0 0.1%float None st_wall_0_hit_twice.
Proof.
  apply (hit_wall_unchanged_state st_wall_0_hit_twice wall_0 0.1%float None).
  - apply (bool_decide_unpack (wall_0 ∉ destroyed_walls (world st_wall_0_hit_twice))).
    vm_compute. exact I.
  - split; intros _; vm_compute; eauto.
Defined.

(** C7, counterexample.  The first hit of 0.25 on a fresh wall leaves it
    Intact (health 0.75): the call emits no notification and spawns no
    debris. *)
Lemma hit_wall_intact_is_silent :
  exists s',
    hit_wall wall_0 0.25%float None (St_init 42) = Some (false, s')
    /\ (wall_0 ∉ destroyed_walls (world (St_init 42)))
    /\ get_wall_state (world (St_init 42)) wall_0 = INTACT
    /\ get_wall_state (world s') wall_0 = INTACT
    /\ emitted (event_bus s') = []
    /\ debris_pieces (world s') = [].
Proof.
  eexists. split; [vm_compute; reflexivity|].
  split; [apply not_elem_of_empty|].
  repeat split; vm_compute; reflexivity.
Qed.

(** ** C8: instant destruction is idempotent *)

Lemma full_burst_num_particles (n : nat) : full_burst n (num_particles n).
Proof.
  split; [reflexivity|]. split; [apply num_particles_range|].
  intros ->. vm_compute. reflexivity.
Qed.

(** C8.  On a wall (a pillar) that is not destroyed yet, [destroy_wall]
    ([destroy_pillar]) called twice spawns the full debris burst once (the
    [max(250, int(1200 / (1 + n / 20)))] particles for the [n] keys then
    destroyed: at least 250, at most 1200, and 1142 for the first key
    destroyed in a world) and emits the destroyed notification once; the key
    is in the destroyed set, and a wall then reads Destroyed with health 0.
    The second call returns with the program state unchanged. *)
Theorem destroy_twice (s : St) (k : WallKey) (p : PillarKey) (sound sound' : bool) :
  k ∉ destroyed_walls (world s) ->
  p ∉ destroyed_pillars (world s) ->
  wall_destroyed_once k sound sound' s /\ pillar_destroyed_once p sound sound' s.
Proof.
  intros Hk Hp. split.
  - unfold wall_destroyed_once.
    assert (size ({[k]} ∪ destroyed_walls (world s)) = S (size (destroyed_walls (world s))))
      as Hsize.
    { rewrite size_union by (apply disjoint_singleton_l; exact Hk).
      rewrite size_singleton. reflexivity. }
    assert (wp (destroy_wall k sound) s (fun _ s1 =>
              destroyed_walls (world s1) = {[k]} ∪ destroyed_walls (world s)
              /\ debris_pieces (world s1)
                 = debris_pieces (world s)
                   ++ replicate (num_particles (size ({[k]} ∪ destroyed_walls (world s))))
                                (Debris_new (wall_collapse k) true)
              /\ emitted (event_bus s1)
                 = emitted (event_bus s)
                   ++ [wall_event WALL_DESTROYED k (_get_wall_center k) None]))
      as ([] & s1 & Hrun & Hdw & Hdeb & Hev).
    { unfold destroy_wall, _destroy_wall_internal. wp_steps.
      rewrite bool_decide_eq_false_2 by assumption. wp_steps. world_fields.
      rewrite spawn_loop_replicate. repeat split; reflexivity. }
    assert (k ∈ destroyed_walls (world s1)) as Hin
      by (rewrite Hdw; apply elem_of_union_l, elem_of_singleton; reflexivity).
    rewrite Hsize in Hdeb.
    exists s1, (num_particles (S (size (destroyed_walls (world s))))).
    split; [exact Hrun|].
    split; [unfold destroy_wall; unfold_M; rewrite bool_decide_eq_true_2 by assumption;
            reflexivity|].
    split; [apply full_burst_num_particles|].
    split; [exact Hdeb|].
    split; [rewrite Hdeb, length_app, length_replicate; reflexivity|].
    split; [exact Hev|]. split; [exact Hdw|].
    unfold get_wall_state, get_wall_health.
    rewrite !bool_decide_eq_true_2 by exact Hin. split; reflexivity.
  - unfold pillar_destroyed_once. destruct p as [pillar_x pillar_z].
    assert (size ({[(pillar_x, pillar_z)]} ∪ destroyed_pillars (world s))
            = S (size (destroyed_pillars (world s)))) as Hsize.
    { rewrite size_union by (apply disjoint_singleton_l; exact Hp).
      rewrite size_singleton. reflexivity. }
    assert (wp (destroy_pillar (pillar_x, pillar_z) sound) s (fun _ s1 =>
              destroyed_pillars (world s1) = {[(pillar_x, pillar_z)]} ∪ destroyed_pillars (world s)
              /\ debris_pieces (world s1)
                 = debris_pieces (world s)
                   ++ replicate (num_particles
                                   (size ({[(pillar_x, pillar_z)]} ∪ destroyed_pillars (world s))))
                                (Debris_new (pillar_collapse (pillar_x, pillar_z)) true)
              /\ (exists ev, emitted (event_bus s1) = emitted (event_bus s) ++ [ev]
                             /\ type ev = PILLAR_DESTROYED
                             /\ pillar_key ev = Some (pillar_x, pillar_z))))
      as ([] & s1 & Hrun & Hdp & Hdeb & (ev & Hev & Hty & Hpk)).
    { unfold destroy_pillar. wp_steps.
      rewrite bool_decide_eq_false_2 by assumption. wp_steps.
      cbn [world event_bus sounds_played destroyed_pillars debris_pieces emitted emit
           set_destroyed_pillars set_debris_pieces].
      rewrite spawn_loop_replicate.
      split; [reflexivity|]. split; [reflexivity|].
      eexists. split; [reflexivity|]. split; reflexivity. }
    assert ((pillar_x, pillar_z) ∈ destroyed_pillars (world s1)) as Hin
      by (rewrite Hdp; apply elem_of_union_l, elem_of_singleton; reflexivity).
    rewrite Hsize in Hdeb.
    exists s1, ev, (num_particles (S (size (destroyed_pillars (world s))))).
    split; [exact Hrun|].
    split; [unfold destroy_pillar; unfold_M; rewrite bool_decide_eq_true_2 by assumption;
            reflexivity|].
    split; [apply full_burst_num_particles|].
    split; [exact Hdeb|].
    split; [rewrite Hdeb, length_app, length_replicate; reflexivity|].
    split; [exact Hev|]. split; [exact Hty|]. split; [exact Hpk | exact Hdp].
Qed.

Lemma destroy_twice_witness :
  wall_destroyed_once wall_0 true true (St_init 42)
  /\ pillar_destroyed_once pillar_0 true true (St_init 42).
Proof.
  apply (destroy_twice (St_init 42) wall_0 pillar_0 true true).
  - apply not_elem_of_empty.
  - apply not_elem_of_empty.
Defined.

(** ** Procedural queries: the caches never change an answer *)

Section generation.
Context `{PyRuntime}.

Lemma zone_type_in_table (zone_x zone_z seed : Z) :
  exists props dc,
    ProceduralZone.dict_get ProceduralZone.ZONE_TYPES
      (ProceduralZone.get_zone_type zone_x zone_z seed) = Some props
    /\ ProceduralZone.dict_get ProceduralZone.decay_chances
         (ProceduralZone.get_zone_type zone_x zone_z seed) = Some dc
    /\ 0 < ProceduralZone.room_size props.
Proof.
  unfold ProceduralZone.get_zone_type.
  change (Z.of_nat (length ProceduralZone.ZONE_TYPES)) with 12.
  set (hash_val := Z.land _ _).
  pose proof (Z.mod_pos_bound hash_val 12 ltac:(lia)) as Hb.
  set (i := hash_val mod 12) in *.
  assert (i = 0 \/ i = 1 \/ i = 2 \/ i = 3 \/ i = 4 \/ i = 5 \/ i = 6 \/ i = 7
          \/ i = 8 \/ i = 9 \/ i = 10 \/ i = 11) as Hi by lia.
  clearbody i. clear Hb. clear hash_val.
  repeat (destruct Hi as [-> | Hi]).
  all: try subst i.
  all: (eexists _, _; split; [vm_compute; reflexivity|]; split; [vm_compute; reflexivity|];
        vm_compute; reflexivity).
Qed.

Lemma get_zone_properties_total (zone_x zone_z seed : Z) :
  exists props,
    ProceduralZone.get_zone_properties zone_x zone_z seed = Some props
    /\ 0 < ProceduralZone.room_size (ProceduralZone.archetype props).
Proof.
  destruct (zone_type_in_table zone_x zone_z seed) as (props & dc & Hp & Hd & Hr).
  unfold ProceduralZone.get_zone_properties. rewrite Hp.
  eexists. split; [reflexivity | exact Hr].
Qed.

Lemma wp_get_zone_properties s zone_x zone_z :
  caches_ok (world s) ->
  wp (get_zone_properties zone_x zone_z) s (fun props t =>
    ProceduralZone.get_zone_properties zone_x zone_z (world_seed (world s)) = Some props
    /\ caches_ok (world t) /\ caches_only s t
    /\ pillar_cache (world t) = pillar_cache (world s)
    /\ wall_cache (world t) = wall_cache (world s)
    /\ (is_Some (zone_cache (world s) !! (zone_x, zone_z)) -> t = s)).
Proof.
  intros Hok. pose proof Hok as (Hz & Hp & Hw).
  unfold get_zone_properties. wp_steps.
  destruct (zone_cache (world s) !! (zone_x, zone_z)) as [props|] eqn:Hc.
  - wp_steps. eapply wp_subscript; [exact Hc|].
    split; [now apply Hz|]. split; [exact Hok|].
    repeat split; reflexivity.
  - destruct (get_zone_properties_total zone_x zone_z (world_seed (world s)))
      as (props & Hprops & _).
    wp_steps. eapply wp_subscript; [exact Hprops|]. wp_steps.
    cbn [zone_cache set_zone_cache].
    eapply wp_subscript; [apply lookup_insert_eq|].
    split; [exact Hprops|].
    split.
    { unfold caches_ok.
      cbn [world zone_cache pillar_cache wall_cache world_seed set_zone_cache].
      split; [| split; assumption].
      intros zx zz p. destruct (decide ((zone_x, zone_z) = (zx, zz))) as [Heq | Hne].
      - injection Heq as <- <-. rewrite lookup_insert_eq. intros [= <-]. exact Hprops.
      - rewrite lookup_insert_ne by exact Hne. apply Hz. }
    split; [repeat split; reflexivity|].
    split; [reflexivity|]. split; [reflexivity|]. intros [? ?]; discriminate.
Qed.

Lemma sorted_key_swap (p q : Point) : sorted_key p q = sorted_key q p.
Proof.
  unfold sorted_key, point_le. destruct p as [a b], q as [c d]. cbn [fst snd].
  destruct (Z.ltb_spec a c), (Z.eqb_spec a c), (Z.leb_spec b d),
    (Z.ltb_spec c a), (Z.eqb_spec c a), (Z.leb_spec d b);
    cbn [orb andb]; try reflexivity; try lia;
    repeat f_equal; lia.
Qed.

Lemma sorted_key_inv (p q p' q' : Point) :
  sorted_key p q = sorted_key p' q' -> (p = p' /\ q = q') \/ (p = q' /\ q = p').
Proof.
  unfold sorted_key. destruct (point_le p q), (point_le p' q'); intros [= -> ->]; auto.
Qed.

Lemma wall_aligned_swap (room_size x1 z1 x2 z2 : Z) :
  wall_aligned room_size x1 z1 x2 z2 = wall_aligned room_size x2 z2 x1 z1.
Proof.
  unfold wall_aligned, span_mismatch. cbv zeta.
  replace (Z.abs (x1 - x2)) with (Z.abs (x2 - x1)) by lia.
  replace (Z.abs (z1 - z2)) with (Z.abs (z2 - z1)) by lia.
  rewrite (Z.eqb_sym z2 z1), (Z.eqb_sym x2 x1).
  destruct (Z.eqb_spec z1 z2) as [-> | Hz]; destruct (Z.eqb_spec x1 x2) as [-> | Hx];
    reflexivity.
Qed.

Lemma wall_exists_swap (seed x1 z1 x2 z2 : Z) :
  wall_exists seed x1 z1 x2 z2 = wall_exists seed x2 z2 x1 z1.
Proof.
  unfold wall_exists. rewrite (Z.add_comm x2 x1), (Z.add_comm z2 z1).
  destruct (room_size_at seed _ _) as [rs|]; cbn; [| reflexivity].
  f_equal. apply wall_aligned_swap.
Qed.

Lemma wp_get_room_size s (x z : Q) :
  caches_ok (world s) ->
  wp (get_room_size_at_position x z) s (fun room_size t =>
    room_size_at (world_seed (world s)) x z = Some room_size
    /\ 0 < room_size
    /\ caches_ok (world t) /\ caches_only s t
    /\ pillar_cache (world t) = pillar_cache (world s)
    /\ wall_cache (world t) = wall_cache (world s)).
Proof.
  intros Hok. unfold get_room_size_at_position, room_size_at, zone_props_at.
  destruct (get_zone_at x z) as [zone_x zone_z].
  wp_step. eapply wp_mono; [apply wp_get_zone_properties; exact Hok|].
  intros props t (Hp & Hok' & Hco & Hpc & Hwc & _). cbv beta. wp_step.
  rewrite Hp. cbn [fmap option_fmap option_map].
  destruct (get_zone_properties_total zone_x zone_z (world_seed (world s)))
    as (props' & Hp' & Hpos).
  rewrite Hp in Hp'. injection Hp' as <-.
  split; [reflexivity|]. split; [exact Hpos|]. split; [exact Hok'|].
  split; [exact Hco|]. split; [exact Hpc | exact Hwc].
Qed.

End generation.

(** * Further properties of the code *)

(** ** Procedural queries and their caches *)

Section generation_queries.
Context `{PyRuntime}.

Lemma caches_ok_insert_wall (w : World) (x1 z1 x2 z2 : Z) (b : bool) :
  caches_ok w ->
  wall_exists (world_seed w) x1 z1 x2 z2 = Some b ->
  caches_ok (set_wall_cache (<[sorted_key (x1, z1) (x2, z2) := b]> (wall_cache w)) w).
Proof.
  intros (Hz & Hp & Hw) Hb. unfold caches_ok.
  cbn [zone_cache pillar_cache wall_cache world_seed set_wall_cache].
  split; [exact Hz|]. split; [exact Hp|].
  intros a1 c1 a2 c2 b'.
  destruct (decide (sorted_key (x1, z1) (x2, z2) = sorted_key (a1, c1) (a2, c2))) as [Heq | Hne].
  - rewrite Heq, lookup_insert_eq. intros [= <-].
    apply sorted_key_inv in Heq as [[Hp1 Hp2] | [Hp1 Hp2]];
      injection Hp1 as <- <-; injection Hp2 as <- <-.
    + exact Hb.
    + rewrite wall_exists_swap. exact Hb.
  - rewrite lookup_insert_ne by exact Hne. apply Hw.
Qed.

Lemma caches_ok_insert_pillar (w : World) (px pz : Z) :
  caches_ok w ->
  caches_ok (set_pillar_cache (<[(px, pz) := pillar_exists (world_seed w) px pz]> (pillar_cache w)) w).
Proof.
  intros (Hz & Hp & Hw). unfold caches_ok.
  cbn [zone_cache pillar_cache wall_cache world_seed set_pillar_cache].
  split; [exact Hz|]. split; [| exact Hw].
  intros qx qz b. destruct (decide ((px, pz) = (qx, qz))) as [Heq | Hne].
  - injection Heq as <- <-. rewrite lookup_insert_eq. intros [= <-]. reflexivity.
  - rewrite lookup_insert_ne by exact Hne. apply Hp.
Qed.

(** Changes to the fields the generators do not read keep the caches
    right. *)
Lemma caches_ok_same (w w' : World) :
  world_seed w' = world_seed w -> zone_cache w' = zone_cache w ->
  pillar_cache w' = pillar_cache w -> wall_cache w' = wall_cache w ->
  caches_ok w -> caches_ok w'.
Proof. unfold caches_ok. intros -> -> -> ->. trivial. Qed.

Lemma wp_has_pillar_at s (px pz : Z) :
  caches_ok (world s) ->
  wp (has_pillar_at px pz) s (fun b t =>
    b = pillar_exists (world_seed (world s)) px pz
    /\ caches_ok (world t) /\ caches_only s t
    /\ wall_cache (world t) = wall_cache (world s)
    /\ zone_cache (world t) = zone_cache (world s)
    /\ pillar_cache (world t) !! (px, pz) = Some b
    /\ (is_Some (pillar_cache (world s) !! (px, pz)) -> t = s)).
Proof.
  intros Hok. pose proof Hok as (Hz & Hp & Hw).
  unfold has_pillar_at. wp_steps.
  destruct (pillar_cache (world s) !! (px, pz)) as [b|] eqn:Hc.
  - wp_steps. split; [now apply Hp|]. split; [exact Hok|].
    split; [repeat split; reflexivity|]. split; [reflexivity|]. split; [reflexivity|].
    split; [exact Hc | reflexivity].
  - cbv zeta.
    match goal with
    | |- wp ?m _ _ =>
        assert (m = cache_pillar (px, pz) (pillar_exists (world_seed (world s)) px pz)) as ->
    end.
    { unfold pillar_exists.
      destruct (String.eqb config.PILLAR_MODE "none"); [reflexivity|].
      destruct (negb _); [reflexivity|].
      destruct (String.eqb config.PILLAR_MODE "all"); reflexivity. }
    unfold cache_pillar. wp_steps.
    split; [reflexivity|]. split; [now apply caches_ok_insert_pillar|].
    split; [repeat split; reflexivity|]. split; [reflexivity|]. split; [reflexivity|].
    split; [apply lookup_insert_eq | intros [? ?]; discriminate].
Qed.

Lemma wp_cache_wall s (x1 z1 x2 z2 : Z) (b : bool) :
  caches_ok (world s) ->
  wall_exists (world_seed (world s)) x1 z1 x2 z2 = Some b ->
  wp (cache_wall (sorted_key (x1, z1) (x2, z2)) b) s (fun r t =>
    r = b /\ caches_ok (world t) /\ caches_only s t
    /\ pillar_cache (world t) = pillar_cache (world s)
    /\ wall_cache (world t) = <[sorted_key (x1, z1) (x2, z2) := b]> (wall_cache (world s))).
Proof.
  intros Hok Hb. unfold cache_wall. wp_steps.
  split; [reflexivity|]. split; [now apply caches_ok_insert_wall|].
  split; [repeat split; reflexivity|]. split; reflexivity.
Qed.

Lemma wp_roll_decay s (x1 z1 x2 z2 : Z) :
  caches_ok (world s) ->
  wp (roll_decay (sorted_key (x1, z1) (x2, z2)) x1 z1 x2 z2) s (fun _ t =>
    caches_ok (world t)
    /\ world_seed (world t) = world_seed (world s)
    /\ pillar_cache (world t) = pillar_cache (world s)
    /\ wall_cache (world t) = wall_cache (world s)
    /\ event_bus t = event_bus s /\ sounds_played t = sounds_played s
    /\ destroyed_pillars (world t) = destroyed_pillars (world s)
    /\ wall_states (world t) = wall_states (world s)
    /\ wall_health (world t) = wall_health (world s)
    /\ wall_cracks (world t) = wall_cracks (world s)
    /\ debris_pieces (world t) = debris_pieces (world s)
    /\ _spawned_rubble (world t) = _spawned_rubble (world s)
    /\ decay_outcome x1 z1 x2 z2 s t).
Proof.
  intros Hok. unfold roll_decay, decay_outcome. cbv zeta. wp_steps.
  destruct (pre_damaged_walls (world s) !! sorted_key (x1, z1) (x2, z2)) as [dmg|] eqn:Hpre.
  - wp_steps. split; [exact Hok|]. repeat split; reflexivity.
  - unfold decay_chance_at, zone_props_at.
    destruct (get_zone_at (inject_Z (x1 + x2) / 2) (inject_Z (z1 + z2) / 2)) as [zone_x zone_z].
    wp_step. eapply wp_mono; [apply wp_get_zone_properties; exact Hok|].
    intros props t (Hp & Hok' & Hco & Hpc & Hwc & _). cbv beta.
    destruct Hco as (Hbus & Hsnd & Hseed & Hdw & Hdp & Hpd & Hws & Hwh & Hwcr & Hdeb & Hrub).
    wp_steps. rewrite Hseed. rewrite Hp. cbn [fmap option_fmap option_map].
    fold (decay_seed_of (world_seed (world s)) x1 z1 x2 z2).
    set (roll := Random (decay_seed_of (world_seed (world s)) x1 z1 x2 z2) 0).
    set (damage := (0.0 + (0.5 - 0.0) * Random (decay_seed_of (world_seed (world s)) x1 z1 x2 z2) 1)%Q).
    destruct (Qltb roll (ProceduralZone.decay_chance props)) eqn:Hroll.
    + wp_steps. destruct (Qltb damage 0.2) eqn:Hdmg; wp_steps;
        cbn [world_seed pillar_cache wall_cache zone_cache destroyed_pillars wall_states
             wall_health wall_cracks debris_pieces pre_damaged_walls destroyed_walls
             set_pre_damaged_walls set_destroyed_walls].
      * split; [eapply caches_ok_same; [.. | exact Hok']; reflexivity|].
        repeat (split; [assumption|]).
        intros chance [= <-]. rewrite Hroll. cbn [andb]. rewrite Hpd, Hdw.
        split; reflexivity.
      * split; [eapply caches_ok_same; [.. | exact Hok']; reflexivity|].
        repeat (split; [assumption|]).
        intros chance [= <-]. rewrite Hroll. cbn [andb]. rewrite Hpd, Hdw.
        split; reflexivity.
    + wp_steps. split; [exact Hok'|].
      repeat (split; [assumption|]).
      intros chance [= <-]. rewrite Hroll. cbn [andb]. rewrite Hpd, Hdw.
      split; reflexivity.
Qed.

Lemma caches_only_frame s t : caches_only s t -> query_frame s t.
Proof.
  intros (Hbus & Hsnd & Hseed & Hdw & Hdp & Hpd & Hws & Hwh & Hwcr & Hdeb & Hrub).
  repeat split; assumption.
Qed.

Lemma query_frame_refl s : query_frame s s.
Proof. repeat split; reflexivity. Qed.

Lemma query_frame_trans s t u : query_frame s t -> query_frame t u -> query_frame s u.
Proof.
  intros (A1 & A2 & A3 & A4 & A5 & A6 & A7 & A8 & A9)
         (B1 & B2 & B3 & B4 & B5 & B6 & B7 & B8 & B9).
  repeat split; etransitivity; eassumption.
Qed.

Lemma wp_has_wall_between s (x1 z1 x2 z2 : Z) :
  caches_ok (world s) ->
  wp (has_wall_between x1 z1 x2 z2) s (fun b t =>
    wall_exists (world_seed (world s)) x1 z1 x2 z2 = Some b
    /\ caches_ok (world t) /\ query_frame s t
    /\ pillar_cache (world t) = pillar_cache (world s)
    /\ wall_cache (world t) !! sorted_key (x1, z1) (x2, z2) = Some b
    /\ (is_Some (wall_cache (world s) !! sorted_key (x1, z1) (x2, z2)) -> t = s)
    /\ (wall_cache (world s) !! sorted_key (x1, z1) (x2, z2) = None ->
        if b then decay_outcome x1 z1 x2 z2 s t
        else pre_damaged_walls (world t) = pre_damaged_walls (world s)
             /\ destroyed_walls (world t) = destroyed_walls (world s))).
Proof.
  intros Hok. pose proof Hok as (Hz & Hp & Hw).
  unfold has_wall_between. cbv zeta. wp_steps.
  destruct (wall_cache (world s) !! sorted_key (x1, z1) (x2, z2)) as [b|] eqn:Hc.
  - wp_steps. split; [now apply Hw|]. split; [exact Hok|].
    split; [apply query_frame_refl|]. split; [reflexivity|]. split; [exact Hc|].
    split; [reflexivity | intros; discriminate].
  - wp_step. eapply wp_mono; [apply wp_get_room_size; exact Hok|].
    intros rs t1 (Hrs & Hpos & Hok1 & Hco & Hpc1 & Hwc1). cbv beta.
    pose proof Hco as (Hbus & Hsnd & Hseed & Hdw & Hdp & Hpd & _).
    assert (wall_exists (world_seed (world t1)) x1 z1 x2 z2
            = Some (wall_aligned rs x1 z1 x2 z2)) as Hex.
    { rewrite Hseed. unfold wall_exists. rewrite Hrs. reflexivity. }
    unfold wall_aligned in Hex. cbv zeta in Hex.
    destruct (negb ((z1 =? z2) || (x1 =? x2))) eqn:Hax.
    { eapply wp_mono; [apply wp_cache_wall; [exact Hok1 | exact Hex]|].
      intros r t (-> & Hok2 & Hco2 & Hpc2 & Hwc2). cbv beta.
      rewrite <- Hseed. split; [exact Hex|]. split; [exact Hok2|].
      split; [eapply query_frame_trans; apply caches_only_frame; eassumption|].
      split; [congruence|]. split; [rewrite Hwc2; apply lookup_insert_eq|].
      split; [intros [? ?]; discriminate|]. intros _.
      destruct Hco2 as (_ & _ & _ & Hdw2 & _ & Hpd2 & _). split; congruence. }
    match type of Hex with
    | context [if ?c then false else true] => destruct c eqn:Hmis
    end.
    { eapply wp_mono; [apply wp_cache_wall; [exact Hok1 | exact Hex]|].
      intros r t (-> & Hok2 & Hco2 & Hpc2 & Hwc2). cbv beta.
      rewrite <- Hseed. split; [exact Hex|]. split; [exact Hok2|].
      split; [eapply query_frame_trans; apply caches_only_frame; eassumption|].
      split; [congruence|]. split; [rewrite Hwc2; apply lookup_insert_eq|].
      split; [intros [? ?]; discriminate|]. intros _.
      destruct Hco2 as (_ & _ & _ & Hdw2 & _ & Hpd2 & _). split; congruence. }
    wp_step. eapply wp_mono; [apply wp_roll_decay; exact Hok1|].
    intros [] t2 (Hok2 & Hseed2 & Hpc2 & Hwc2 & Hbus2 & Hsnd2 & Hdp2 & Hws2 & Hwh2 & Hwcr2
                  & Hdeb2 & Hrub2 & Hdecay). cbv beta.
    assert (wall_exists (world_seed (world t2)) x1 z1 x2 z2 = Some true) as Hex2
      by (rewrite Hseed2; exact Hex).
    eapply wp_mono; [apply wp_cache_wall; [exact Hok2 | exact Hex2]|].
    intros r t (-> & Hok3 & Hco3 & Hpc3 & Hwc3). cbv beta.
    rewrite <- Hseed. split; [exact Hex|]. split; [exact Hok3|].
    split.
    { eapply query_frame_trans; [apply caches_only_frame; exact Hco|].
      eapply query_frame_trans; [| apply caches_only_frame; exact Hco3].
      destruct Hco as (_ & _ & _ & _ & _ & _ & _ & _ & _ & _ & _).
      repeat split; assumption. }
    split; [congruence|]. split; [rewrite Hwc3; apply lookup_insert_eq|].
    split; [intros [? ?]; discriminate|]. intros _.
    destruct Hco3 as (_ & _ & _ & Hdw3 & _ & Hpd3 & _).
    unfold decay_outcome in *. cbv zeta in *.
    rewrite Hdw3, Hpd3. rewrite Hpd, Hdw, Hseed in Hdecay. exact Hdecay.
Qed.

Lemma caches_ok_init (seed : Z) : caches_ok (World_init seed).
Proof.
  unfold caches_ok, World_init. cbn [zone_cache pillar_cache wall_cache world_seed].
  repeat split; intros *; rewrite lookup_empty; discriminate.
Qed.

Lemma has_wall_between_cached s (x1 z1 x2 z2 : Z) (b : bool) :
  wall_cache (world s) !! sorted_key (x1, z1) (x2, z2) = Some b ->
  has_wall_between x1 z1 x2 z2 s = Some (b, s).
Proof. intros Hc. unfold has_wall_between. unfold_M. cbv zeta. rewrite Hc. reflexivity. Qed.



(** X2.  In two states with the same seed whose caches hold generated
    values, each of the four procedural queries gives the same answer, and
    asking again after the first call gives it once more. *)
Theorem queries_deterministic (s s' : St) :
  world_seed (world s') = world_seed (world s) ->
  caches_ok (world s) -> caches_ok (world s') ->
  queries_agree s s'.
Proof.
  intros Hseed Hok Hok' x1 z1 x2 z2. unfold same_answers.
  split; [| split; [| split]].
  - destruct (wp_has_wall_between s x1 z1 x2 z2 Hok)
      as (b & t & Hrun & Hex & Hokt & Hfr & _ & Hwc & _).
    destruct (wp_has_wall_between s' x1 z1 x2 z2 Hok') as (b' & t' & Hrun' & Hex' & _).
    rewrite Hseed, Hex in Hex'. injection Hex' as <-.
    exists b, t, t, t'. split; [exact Hrun|]. split; [| exact Hrun'].
    now apply has_wall_between_cached.
  - destruct (wp_has_pillar_at s x1 z1 Hok) as (b & t & Hrun & -> & Hokt & Hco & _ & _ & Hpc & _).
    destruct (wp_has_pillar_at t x1 z1 Hokt) as (b2 & u & Hrun2 & -> & _).
    destruct (wp_has_pillar_at s' x1 z1 Hok') as (b' & t' & Hrun' & -> & _).
    destruct Hco as (_ & _ & Hst & _).
    rewrite Hst in Hrun2. rewrite Hseed in Hrun'. eauto 10.
  - unfold world_get_doorway_type. unfold_M. rewrite Hseed. eauto 10.
  - destruct (wp_get_zone_properties s x1 z1 Hok) as (p & t & Hrun & Hp & Hokt & Hco & _).
    destruct (wp_get_zone_properties t x1 z1 Hokt) as (p2 & u & Hrun2 & Hp2 & _).
    destruct (wp_get_zone_properties s' x1 z1 Hok') as (p' & t' & Hrun' & Hp' & _).
    destruct Hco as (_ & _ & Hst & _).
    rewrite Hst, Hp in Hp2. injection Hp2 as <-.
    rewrite Hseed, Hp in Hp'. injection Hp' as <-. eauto 10.
Qed.

(** X3.  The answer of [has_wall_between] does not depend on the order of
    the two endpoints. *)
Theorem has_wall_between_symmetric (s : St) (x1 z1 x2 z2 : Z) :
  caches_ok (world s) ->
  endpoint_order_irrelevant x1 z1 x2 z2 s.
Proof.
  intros Hok. unfold endpoint_order_irrelevant.
  destruct (wp_has_wall_between s x1 z1 x2 z2 Hok)
    as (b & t & Hrun & Hex & Hokt & Hfr & _ & Hwc & _).
  destruct (wp_has_wall_between s x2 z2 x1 z1 Hok) as (b' & t' & Hrun' & Hex' & _).
  rewrite wall_exists_swap, Hex in Hex'. injection Hex' as <-.
  exists b, t, t'. split; [exact Hrun|]. split; [exact Hrun'|].
  apply has_wall_between_cached. rewrite sorted_key_swap. exact Hwc.
Qed.


End generation_queries.


Lemma st_wall_0_hit_twice_caches : caches_ok (world st_wall_0_hit_twice).
Proof.
  assert (zone_cache (world st_wall_0_hit_twice) = ∅) as Hz by (vm_compute; reflexivity).
  assert (pillar_cache (world st_wall_0_hit_twice) = ∅) as Hp by (vm_compute; reflexivity).
  assert (wall_cache (world st_wall_0_hit_twice) = ∅) as Hw by (vm_compute; reflexivity).
  unfold caches_ok. rewrite Hz, Hp, Hw.
  repeat split; intros *; rewrite lookup_empty; discriminate.
Defined.

Lemma queries_deterministic_witness : queries_agree (St_init 42) st_wall_0_hit_twice.
Proof.
  apply (queries_deterministic (St_init 42) st_wall_0_hit_twice).
  - vm_compute. reflexivity.
  - apply caches_ok_init.
  - apply st_wall_0_hit_twice_caches.
Defined.

Lemma has_wall_between_symmetric_witness :
  endpoint_order_irrelevant 0 0 3600 0 (St_init 42).
Proof.
  apply (has_wall_between_symmetric (St_init 42) 0 0 3600 0). apply caches_ok_init.
Defined.


(** ** Damage: locality and the consistency invariant *)

Lemma wall_reading_frame (w w' : World) (k k' : WallKey) (b : bool) :
  k' ≠ k ->
  wall_states w' !! k' = wall_states w !! k' ->
  wall_health w' !! k' = wall_health w !! k' ->
  wall_cracks w' !! k' = wall_cracks w !! k' ->
  destroyed_walls w' = (if b then {[k]} ∪ destroyed_walls w else destroyed_walls w) ->
  wall_reading w' k' = wall_reading w k'.
Proof.
  intros Hne Hs Hh Hc Hd.
  assert (bool_decide (k' ∈ destroyed_walls w') = bool_decide (k' ∈ destroyed_walls w)) as Hin.
  { apply bool_decide_ext. rewrite Hd. destruct b; [| reflexivity].
    rewrite elem_of_union, elem_of_singleton. intuition congruence. }
  unfold wall_reading, get_wall_health, get_wall_state, get_wall_cracks, is_wall_destroyed.
  rewrite Hin, Hs, Hh, Hc. reflexivity.
Qed.

(** X5.  [hit_wall] is local to its key: on a wall whose two damage dicts
    agree, the call returns for every damage (also a negative or NaN one),
    and the health, state, cracks and destroyed flag read for every other
    wall, the caches, the seed, the pre-damage dict, the destroyed pillars
    and the rubble set are unchanged; no wall leaves the destroyed set.
    (What the handlers of the emitted events do, such as playing a sound, is
    not part of the world and not covered.) *)
Theorem hit_wall_is_local (s : St) (k : WallKey) (d : float) (hit_uv : option (Q * Q)) :
  wall_recorded (world s) k ->
  hit_is_local k d hit_uv s.
Proof.
  intros Hrec. unfold hit_is_local.
  destruct (decide (k ∈ destroyed_walls (world s))) as [Hin | Hnd].
  { exists false, s. split; [now apply hit_wall_destroyed_is_noop|].
    repeat split; reflexivity. }
  destruct (hit_wall_effect s k d hit_uv Hnd (proj1 Hrec)) as (b & s' & Hrun & Heff).
  destruct Heff as (Hb & Hs' & Hh' & Hd' & Hev & Hdeb & Hc0 & Hc1 & Hfr & Hseed & Hpc & Hwc
                    & Hzc & Hdp & Hpd & Hrub & Hsub).
  exists b, s'. split; [exact Hrun|].
  split.
  { intros k' Hne. destruct (Hfr k' Hne) as (F1 & F2 & F3).
    eapply wall_reading_frame; eassumption. }
  repeat (split; [assumption|]).
  rewrite Hd'. destruct b; [apply union_subseteq_r | reflexivity].
Qed.

Lemma hit_wall_is_local_witness :
  hit_is_local wall_0 0.35%float (Some (0.5, 0.5)%Q) st_wall_0_hit_twice.
Proof.
  apply (hit_wall_is_local st_wall_0_hit_twice wall_0 0.35%float (Some (0.5, 0.5)%Q)).
  split; intros _; vm_compute; eauto.
Defined.

Lemma walls_ok_init (seed : Z) : walls_ok (World_init seed).
Proof. intros k. unfold wall_ok, World_init. cbn. rewrite !lookup_empty. reflexivity. Qed.

Lemma wall_ok_frame (w w' : World) (k : WallKey) :
  wall_states w' !! k = wall_states w !! k ->
  wall_health w' !! k = wall_health w !! k ->
  wall_ok w k -> wall_ok w' k.
Proof. unfold wall_ok. intros -> ->. trivial. Qed.

Lemma st_wall_0_hit_twice_walls : walls_ok (world st_wall_0_hit_twice).
Proof.
  intros k. unfold wall_ok.
  assert (wall_health (world st_wall_0_hit_twice) = {[wall_0 := 0.5%float]}) as ->
    by (vm_compute; reflexivity).
  assert (wall_states (world st_wall_0_hit_twice) = {[wall_0 := CRACKED]}) as ->
    by (vm_compute; reflexivity).
  destruct (decide (k = wall_0)) as [-> | Hne].
  - rewrite !lookup_singleton_eq. repeat split; reflexivity.
  - rewrite !lookup_singleton_ne by congruence. reflexivity.
Defined.

(** X6.  The consistency of the damage records (every wall never hit, or
    with a binary64 health in [0, 1] stored with the state of that health)
    holds in a fresh world and is kept by [hit_wall] with a damage that is
    not negative (a float [d] with [0 <= d]) and by [destroy_wall], for
    every wall at once.  The health stored is the rounded difference the
    program computes. *)
Theorem walls_ok_kept (s : St) (k : WallKey) (d : float) (hit_uv : option (Q * Q))
    (sound : bool) :
  walls_ok (world s) ->
  (0 <=? d)%float = true ->
  keeps_walls_ok (hit_wall k d hit_uv) s /\ keeps_walls_ok (destroy_wall k sound) s.
Proof.
  intros Hok Hd. split.
  - destruct (hit_wall_wears s k d hit_uv (Hok k) Hd) as (b & s' & Hrun & Hokk & _).
    exists b, s'. split; [exact Hrun|]. intros k'.
    destruct (decide (k' = k)) as [-> | Hne]; [exact Hokk|].
    destruct (decide (k ∈ destroyed_walls (world s))) as [Hin | Hnd].
    { rewrite hit_wall_destroyed_is_noop in Hrun by exact Hin.
      injection Hrun as _ <-. apply Hok. }
    assert (wall_recorded (world s) k) as Hrec.
    { specialize (Hok k). unfold wall_ok, wall_recorded in *.
      destruct (wall_health (world s) !! k); [destruct Hok as (_ & _ & ->) | rewrite Hok];
        split; intros [? ?]; eauto; discriminate. }
    destruct (hit_wall_effect s k d hit_uv Hnd (proj1 Hrec)) as (b2 & s2 & Hrun2 & Heff).
    rewrite Hrun in Hrun2. injection Hrun2 as <- <-.
    destruct Heff as (_ & _ & _ & _ & _ & _ & _ & _ & Hfr & _).
    destruct (Hfr k' Hne) as (F1 & F2 & _).
    eapply wall_ok_frame; [exact F1 | exact F2 | apply Hok].
  - unfold keeps_walls_ok.
    assert (wp (destroy_wall k sound) s (fun _ s' => walls_ok (world s'))) as (a & s' & Hrun & Hq).
    { unfold destroy_wall, _destroy_wall_internal. wp_steps.
      case_bool_decide; wp_steps; [exact Hok|].
      intros k'. unfold wall_ok.
      cbn [world wall_health wall_states set_wall_health set_wall_states set_destroyed_walls
           set_debris_pieces].
      destruct (decide (k = k')) as [<- | Hne].
      + rewrite !lookup_insert_eq. repeat split; reflexivity.
      + rewrite !lookup_insert_ne by exact Hne. apply Hok. }
    eauto.
Qed.

Lemma walls_ok_kept_witness :
  keeps_walls_ok (hit_wall wall_0 0.2%float None) st_wall_0_hit_twice
  /\ keeps_walls_ok (destroy_wall wall_0 true) st_wall_0_hit_twice.
Proof.
  apply (walls_ok_kept st_wall_0_hit_twice wall_0 0.2%float None true).
  - apply st_wall_0_hit_twice_walls.
  - reflexivity.
Defined.

(** ** The zone table *)

(** X7.  [get_zone_properties] never raises: for all zone coordinates and
    seeds the hashed index lands in the archetype table, and the dict it
    returns has a room size between 400 and 4000 that is a multiple of 200,
    a positive ceiling range, wall chance and pillar density within the
    table's bounds, and a decay chance between 0.02 and 0.2 taken from the
    decay table (never the 0.10 default). *)
Theorem zone_properties_in_range (zone_x zone_z seed : Z) :
  exists props,
    ProceduralZone.get_zone_properties zone_x zone_z seed = Some props
    /\ props_in_range props.
Proof.
  unfold ProceduralZone.get_zone_properties, ProceduralZone.get_zone_type, props_in_range.
  change (Z.of_nat (length ProceduralZone.ZONE_TYPES)) with 12.
  set (hash_val := Z.land _ _).
  pose proof (Z.mod_pos_bound hash_val 12 ltac:(lia)) as Hb.
  set (i := hash_val mod 12) in *.
  assert (i = 0 \/ i = 1 \/ i = 2 \/ i = 3 \/ i = 4 \/ i = 5 \/ i = 6 \/ i = 7
          \/ i = 8 \/ i = 9 \/ i = 10 \/ i = 11) as Hi by lia.
  clearbody i. clear Hb. clear hash_val.
  repeat (destruct Hi as [-> | Hi]).
  all: try subst i.
  all: eexists; split; [vm_compute; reflexivity|]; cbv zeta.
  all: cbn [ProceduralZone.archetype ProceduralZone.room_size ProceduralZone.min_ceiling
            ProceduralZone.max_ceiling ProceduralZone.wall_chance ProceduralZone.pillar_density
            ProceduralZone.decay_chance ProceduralZone.zone_type].
  all: repeat split; try (vm_compute; discriminate); try (vm_compute; reflexivity).
  all: try (apply Z.mod_divide; [discriminate | reflexivity]).
Qed.

(** ** Saving and loading *)

(** X8.  Loading the data of [get_state_for_save] restores the seed and
    the set of destroyed walls exactly, leaves the three caches empty (so
    every entry they will hold is regenerated), and keeps the damage
    records, the pre-damage dict, the destroyed pillars and the debris of
    the world it is loaded into. *)
Theorem save_load_round_trip (w w0 : World) :
  world_seed (reloaded w w0) = world_seed w
  /\ destroyed_walls (reloaded w w0) = destroyed_walls w
  /\ pillar_cache (reloaded w w0) = ∅
  /\ wall_cache (reloaded w w0) = ∅
  /\ zone_cache (reloaded w w0) = ∅
  /\ wall_health (reloaded w w0) = wall_health w0
  /\ wall_states (reloaded w w0) = wall_states w0
  /\ pre_damaged_walls (reloaded w w0) = pre_damaged_walls w0
  /\ destroyed_pillars (reloaded w w0) = destroyed_pillars w0
  /\ debris_pieces (reloaded w w0) = debris_pieces w0.
Proof.
  unfold reloaded, world_load_state, load_state, get_state_for_save.
  cbn [save_seed save_destroyed_walls default from_option world_seed destroyed_walls
       pillar_cache wall_cache zone_cache wall_health wall_states pre_damaged_walls
       destroyed_pillars debris_pieces set_zone_cache set_wall_cache set_pillar_cache].
  split; [reflexivity|]. split; [apply list_to_set_elements_L|].
  repeat split; reflexivity.
Qed.

(** ** Rubble piles *)

(** X9.  [spawn_rubble_pile] for a wall that has no pile yet appends 80
    particles, all settled and active, emits nothing and destroys nothing;
    a second call for the same wall, with the endpoints in the same or in
    the other order, changes nothing. *)
Theorem rubble_pile_spawned_once (s : St) (x1 z1 x2 z2 : Z) :
  sorted_key (x1, z1) (x2, z2) ∉ _spawned_rubble (world s) ->
  rubble_spawned_once x1 z1 x2 z2 s.
Proof.
  intros Hnew. unfold rubble_spawned_once. cbv zeta.
  assert (wp (spawn_rubble_pile x1 z1 x2 z2) s (fun _ s1 =>
            sorted_key (x1, z1) (x2, z2) ∈ _spawned_rubble (world s1)
            /\ debris_pieces (world s1)
               = debris_pieces (world s)
                 ++ replicate 80 (Debris_new (rubble_pile (sorted_key (x1, z1) (x2, z2))) false)
            /\ emitted (event_bus s1) = emitted (event_bus s)
            /\ destroyed_walls (world s1) = destroyed_walls (world s)))
    as ([] & s1 & Hrun & Hin & Hdeb & Hev & Hdw).
  { unfold spawn_rubble_pile. cbv zeta. wp_steps.
    rewrite bool_decide_eq_false_2 by exact Hnew. wp_steps.
    cbn [world _spawned_rubble debris_pieces destroyed_walls set_spawned_rubble
         set_debris_pieces].
    rewrite spawn_loop_replicate.
    split; [apply elem_of_union_l, elem_of_singleton; reflexivity|].
    repeat split; reflexivity. }
  exists s1. split; [exact Hrun|].
  split.
  { unfold spawn_rubble_pile. cbv zeta. unfold_M. rewrite (sorted_key_swap (x2, z2)).
    rewrite bool_decide_eq_true_2 by exact Hin. reflexivity. }
  split; [exact Hdeb|].
  split.
  { apply Forall_forall. intros d Hd. apply elem_of_replicate in Hd as [-> _].
    split; reflexivity. }
  split; [exact Hev|]. split; [exact Hdw|].
  unfold spawn_rubble_pile. cbv zeta. unfold_M.
  rewrite bool_decide_eq_true_2 by exact Hin. reflexivity.
Qed.

Lemma rubble_pile_spawned_once_witness : rubble_spawned_once 0 0 400 0 (St_init 42).
Proof.
  apply (rubble_pile_spawned_once (St_init 42) 0 0 400 0). apply not_elem_of_empty.
Defined.

(** ** The event bus *)

Lemma list_remove_subset (h x : Handler) (l : list Handler) :
  x ∈ list_remove h l -> x ∈ l.
Proof.
  induction l as [| a l IH]; cbn [list_remove]; [trivial|].
  case_bool_decide.
  - intros Hx. apply elem_of_cons. now right.
  - rewrite !elem_of_cons. intros [-> | Hx]; auto.
Qed.

Lemma list_remove_NoDup (h : Handler) (l : list Handler) :
  NoDup l -> NoDup (list_remove h l) /\ h ∉ list_remove h l.
Proof.
  induction l as [| a l IH]; cbn [list_remove]; intros Hnd.
  - split; [constructor | apply not_elem_of_nil].
  - apply NoDup_cons in Hnd as [Ha Hl]. case_bool_decide as Heq.
    + subst a. split; assumption.
    + destruct (IH Hl) as [IH1 IH2]. split.
      * apply NoDup_cons. split; [| exact IH1].
        intros Hin. apply Ha. eapply list_remove_subset; exact Hin.
      * rewrite elem_of_cons. intros [-> | Hin]; [congruence | contradiction].
Qed.

(** X10.  A bus on which no handler is subscribed twice to an event type
    stays so under [subscribe] and [unsubscribe]; subscribing twice is the
    same as once; after [unsubscribe] the handler is gone; other event types
    are untouched; and [emit] calls every subscriber of the event's type
    exactly once, in subscription order.  Handlers are recorded, not run: a
    handler that changes the bus while it is called is not covered. *)
Theorem subscriptions_unique (bus : EventBus) (t : EventType) (h : Handler) (event : Event) :
  subscribers_ok bus ->
  subscription_unique t h event bus.
Proof.
  intros Hok. unfold subscription_unique, subscribe, unsubscribe, subscribers_ok, deliveries.
  destruct (decide (h ∈ _subscribers bus t)) as [Hin | Hout].
  - rewrite !(bool_decide_eq_true_2 _ Hin). cbn [_subscribers].
    split; [exact Hok|].
    split.
    { intros t'. case_bool_decide; [| apply Hok]. apply list_remove_NoDup, Hok. }
    split; [exact Hin|].
    split.
    { rewrite bool_decide_eq_true_2 by reflexivity. apply list_remove_NoDup, Hok. }
    split; [reflexivity|].
    split.
    { intros t' Hne. split; [reflexivity|]. now rewrite bool_decide_eq_false_2. }
    split; [reflexivity|]. split; [| reflexivity].
    apply (NoDup_fmap_2 (fun handler : Handler => (handler, event)));
      first [apply Hok | intros a b [= ->]; reflexivity].
  - rewrite !(bool_decide_eq_false_2 _ Hout). cbn [_subscribers].
    rewrite !(bool_decide_eq_true_2 (t = t)) by reflexivity.
    assert (h ∈ _subscribers bus t ++ [h]) as Hnow
      by (apply elem_of_app; right; apply list_elem_of_singleton; reflexivity).
    rewrite (bool_decide_eq_true_2 _ Hnow).
    split.
    { intros t'. case_bool_decide; [| apply Hok].
      apply NoDup_app. split; [apply Hok|]. split; [| apply NoDup_singleton].
      intros x Hx Hxh. apply list_elem_of_singleton in Hxh. subst. contradiction. }
    split; [exact Hok|]. split; [exact Hnow|]. split; [exact Hout|].
    split; [reflexivity|].
    split.
    { intros t' Hne. split; [| reflexivity]. now rewrite bool_decide_eq_false_2. }
    split; [reflexivity|]. split; [| reflexivity].
    apply (NoDup_fmap_2 (fun handler : Handler => (handler, event)));
      first [apply Hok | intros a b [= ->]; reflexivity].
Qed.

Lemma subscribers_ok_init : subscribers_ok EventBus_init.
Proof. intros t. constructor. Qed.

Lemma subscribers_ok_bus_0 : subscribers_ok bus_0.
Proof.
  intros t. destruct t; vm_compute; repeat constructor;
    rewrite ?elem_of_cons, ?elem_of_nil; intuition discriminate.
Defined.

Lemma subscriptions_unique_witness :
  subscription_unique WALL_DESTROYED 1%nat
    (wall_event WALL_DESTROYED wall_0 (_get_wall_center wall_0) None) bus_0.
Proof.
  apply (subscriptions_unique bus_0 WALL_DESTROYED 1%nat).
  apply subscribers_ok_bus_0.
Defined.

Lemma fold_queue (events : list Event) (bus : EventBus) :
  let queued := fold_left (fun b event => queue event b) events bus in
  _queue queued = _queue bus ++ events
  /\ emitted queued = emitted bus /\ calls queued = calls bus
  /\ _subscribers queued = _subscribers bus /\ _processing queued = _processing bus.
Proof.
  cbv zeta. revert bus. induction events as [| e events IH]; intros bus; cbn [fold_left].
  - rewrite app_nil_r. repeat split; reflexivity.
  - destruct (IH (queue e bus)) as (H1 & H2 & H3 & H4 & H5).
    rewrite H1, H2, H3, H4, H5. cbn [queue _queue emitted calls _subscribers _processing].
    rewrite <- app_assoc. repeat split; reflexivity.
Qed.

Lemma fold_emit (events : list Event) (bus : EventBus) :
  let bus' := fold_left (fun b event => emit event b) events bus in
  emitted bus' = emitted bus ++ events
  /\ calls bus' = calls bus ++ concat (map (deliveries bus) events)
  /\ _subscribers bus' = _subscribers bus.
Proof.
  cbv zeta. revert bus. induction events as [| e events IH]; intros bus; cbn [fold_left].
  - cbn. rewrite !app_nil_r. repeat split; reflexivity.
  - destruct (IH (emit e bus)) as (H1 & H2 & H3).
    rewrite H1, H2, H3. cbn [emit emitted calls _subscribers map concat].
    unfold deliveries at 1. cbn [emit _subscribers].
    rewrite <- !app_assoc. repeat split; reflexivity.
Qed.

(** X11.  Events queued on a bus that is not processing are not emitted
    until [process_queue], which then emits the whole queue in the order it
    was filled, calling each event's subscribers in turn, and leaves the
    queue empty; processing again changes nothing.  As for [emit], the
    handlers called are taken not to queue or subscribe themselves. *)
Theorem queue_is_flushed_in_order (bus : EventBus) (events : list Event) :
  _processing bus = false ->
  queue_flushed events bus.
Proof.
  intros Hproc. unfold queue_flushed. cbv zeta.
  destruct (fold_queue events bus) as (Q1 & Q2 & Q3 & Q4 & Q5).
  set (queued := fold_left (fun b event => queue event b) events bus) in *.
  split; [exact Q2|].
  unfold process_queue. rewrite Q5, Hproc. cbn iota.
  destruct (fold_emit (_queue queued) queued) as (E1 & E2 & E3).
  cbn [emitted calls _queue _subscribers _processing].
  rewrite E1, E2, E3, Q1, Q2, Q3, Q4.
  split; [reflexivity|]. split.
  { f_equal. f_equal. apply map_ext_in. intros ev _. unfold deliveries. now rewrite Q4. }
  split; [reflexivity|]. split; [reflexivity|].
  cbn [fold_left]. reflexivity.
Qed.

Lemma queue_is_flushed_in_order_witness :
  queue_flushed
    [wall_event WALL_CRACKED wall_0 (_get_wall_center wall_0) (Some 0.5%float);
     wall_event WALL_DESTROYED wall_0 (_get_wall_center wall_0) None] bus_0.
Proof.
  apply (queue_is_flushed_in_order bus_0). reflexivity.
Defined.

(** ** check_collision *)

Section collision_queries.
Context `{PyRuntime}.

Lemma collision_frame_refl s : caches_ok (world s) -> collision_frame s s.
Proof. intros Hok. split; [exact Hok|]. split; [apply query_frame_refl | reflexivity]. Qed.

Lemma collision_frame_trans s t u :
  collision_frame s t -> collision_frame t u -> collision_frame s u.
Proof.
  intros (_ & F1 & D1) (Hok & F2 & D2). split; [exact Hok|].
  split; [eapply query_frame_trans; eassumption | etransitivity; eassumption].
Qed.

Lemma decay_chance_total (seed x1 z1 x2 z2 : Z) :
  exists chance, decay_chance_at seed x1 z1 x2 z2 = Some chance.
Proof.
  unfold decay_chance_at, zone_props_at.
  destruct (get_zone_at (inject_Z (x1 + x2) / 2) (inject_Z (z1 + z2) / 2)) as [zx zz].
  destruct (get_zone_properties_total zx zz seed) as (props & -> & _).
  eexists. reflexivity.
Qed.

Lemma wp_has_wall_between_frame s (x1 z1 x2 z2 : Z) :
  caches_ok (world s) ->
  wp (has_wall_between x1 z1 x2 z2) s (fun b t =>
    wall_exists (world_seed (world s)) x1 z1 x2 z2 = Some b /\ collision_frame s t).
Proof.
  intros Hok. eapply wp_mono; [apply wp_has_wall_between; exact Hok|].
  intros b t (Hex & Hok' & Hfr & _ & _ & Hhit & Hmiss). cbv beta.
  split; [exact Hex|]. split; [exact Hok'|]. split; [exact Hfr|].
  destruct (wall_cache (world s) !! sorted_key (x1, z1) (x2, z2)) as [c|] eqn:Hc.
  - rewrite (Hhit (mk_is_Some _ _ eq_refl)). reflexivity.
  - specialize (Hmiss eq_refl). destruct b.
    + unfold decay_outcome in Hmiss. cbv zeta in Hmiss.
      destruct (pre_damaged_walls (world s) !! sorted_key (x1, z1) (x2, z2)).
      * destruct Hmiss as [_ ->]. reflexivity.
      * destruct (decay_chance_total (world_seed (world s)) x1 z1 x2 z2) as [chance Hch].
        destruct (Hmiss chance Hch) as [_ ->].
        match goal with |- context [if ?c then _ else _] => destruct c end;
          [apply union_subseteq_r | reflexivity].
    + destruct Hmiss as [_ ->]. reflexivity.
Qed.

Lemma wp_check_wall s (x1 z1 x2 z2 wall_start wall_across : Z) (along across : float) :
  caches_ok (world s) ->
  wp (check_wall x1 z1 x2 z2 wall_start wall_across along across) s
     (fun _ t => collision_frame s t).
Proof.
  intros Hok. unfold check_wall, world_get_doorway_type. wp_step.
  eapply wp_mono; [apply wp_has_wall_between_frame; exact Hok|].
  intros hw t (_ & Hfr). cbv beta. destruct hw; [| wp_steps; exact Hfr].
  cbv zeta. wp_steps.
  case_bool_decide; wp_steps; [exact Hfr|].
  match goal with |- context [if ?c then _ else _] => destruct c end; wp_steps; exact Hfr.
Qed.

Lemma wp_check_pillar s (px_grid pz_grid : Z) (x z : float) :
  caches_ok (world s) ->
  wp (check_pillar px_grid pz_grid x z) s (fun _ t => collision_frame s t).
Proof.
  intros Hok. unfold check_pillar. cbv zeta. wp_step.
  eapply wp_mono; [apply wp_has_pillar_at; exact Hok|].
  intros hp t (_ & Hok' & Hco & _). cbv beta.
  assert (collision_frame s t) as Hfr.
  { split; [exact Hok'|]. split; [apply caches_only_frame; exact Hco|].
    destruct Hco as (_ & _ & _ & -> & _). reflexivity. }
  wp_steps.
  match goal with |- context [if ?c then _ else _] => destruct c end; wp_steps; exact Hfr.
Qed.

Lemma wp_check_cell s (x z : float) (px_grid pz_grid : Z) :
  caches_ok (world s) ->
  wp (check_cell x z px_grid pz_grid) s (fun _ t => collision_frame s t).
Proof.
  intros Hok. unfold check_cell. wp_step.
  eapply wp_mono; [apply wp_check_wall; exact Hok|].
  intros f t Hfr. cbv beta. destruct f; [| wp_steps; exact Hfr ..].
  wp_step. eapply wp_mono; [apply wp_check_wall; apply Hfr|].
  intros f t' Hfr'. cbv beta.
  pose proof (collision_frame_trans _ _ _ Hfr Hfr') as Hfr2.
  destruct f; [| wp_steps; exact Hfr2 ..].
  eapply wp_mono; [apply wp_check_pillar; apply Hfr'|].
  intros b u Hfr3. eapply collision_frame_trans; eassumption.
Qed.

(** A loop whose body keeps the frame keeps it. *)
Lemma wp_any_M {A : Type} (body : A -> M bool) (l : list A) s :
  (forall a t, caches_ok (world t) -> wp (body a) t (fun _ u => collision_frame t u)) ->
  caches_ok (world s) ->
  wp (any_M body l) s (fun _ t => collision_frame s t).
Proof.
  intros Hbody. revert s. induction l as [| a l IH]; intros s Hok; cbn [any_M].
  - wp_steps. now apply collision_frame_refl.
  - wp_step. eapply wp_mono; [apply Hbody; exact Hok|].
    intros b t Hfr. cbv beta. destruct b; [wp_steps; exact Hfr|].
    eapply wp_mono; [apply IH; apply Hfr|].
    intros b u Hfr'. eapply collision_frame_trans; eassumption.
Qed.

(** X12.  From a state with coherent caches [check_collision] returns for
    every position, finite or not: no lookup of it fails.  It changes only
    the caches, the pre-damage dict and the destroyed walls, of which none is
    restored; for a position that is not finite it answers True and changes
    nothing. *)
Theorem check_collision_total (s : St) (x z : float) :
  caches_ok (world s) ->
  check_collision_returns x z s.
Proof.
  intros Hok. unfold check_collision_returns.
  assert (wp (check_collision x z) s (fun b t =>
            collision_frame s t
            /\ (is_finite x && is_finite z = false -> b = true /\ t = s))) as Hwp.
  { unfold check_collision.
    destruct (is_finite x) eqn:Hx, (is_finite z) eqn:Hz; cbn [negb orb andb];
      try (wp_steps; split; [now apply collision_frame_refl | intros _; split; reflexivity]).
    wp_step. eapply wp_mono; [apply wp_get_room_size; exact Hok|].
    intros room_size t (_ & _ & Hok' & Hco & _). cbv beta zeta.
    assert (collision_frame s t) as Hfr.
    { split; [exact Hok'|]. split; [apply caches_only_frame; exact Hco|].
      destruct Hco as (_ & _ & _ & -> & _). reflexivity. }
    eapply wp_mono.
    { apply wp_any_M; [| exact Hok']. intros px_grid u Hu.
      apply wp_any_M; [| exact Hu]. intros pz_grid v Hv. now apply wp_check_cell. }
    intros b u Hfr'. split; [eapply collision_frame_trans; eassumption | discriminate]. }
  destruct Hwp as (b & t & Hrun & Hfr & Hnf). exists b, t. auto.
Qed.


End collision_queries.

Lemma check_collision_total_witness :
  check_collision_returns (float_of_Z 200) (float_of_Z 200) (St_init 42).
Proof.
  apply (check_collision_total (St_init 42) (float_of_Z 200) (float_of_Z 200)).
  apply caches_ok_init.
Defined.



(** ** camera.py: clip_poly_near *)

Lemma inside_vertex_z (p : Vec3) :
  inside p = (float_of_Z config.NEAR <=? vertex_z p)%float.
Proof. destruct p as [[px py] pz]. reflexivity. Qed.

Lemma intersect_on_near_plane (a b i : Vec3) : intersect a b = Some i -> on_near_plane i.
Proof.
  destruct a as [[ax ay] az], b as [[bx by_] bz]. unfold intersect. cbv zeta.
  destruct (_ <? _)%float; [discriminate|].
  destruct (_ || _); [discriminate|]. intros [= <-]. reflexivity.
Qed.

Lemma clip_loop_inside (poly : list Vec3) (prev : Vec3) (out : list Vec3) :
  Forall (fun p => inside p = true) poly ->
  clip_loop poly prev true out = out ++ poly.
Proof.
  revert prev out. induction poly as [| cur rest IH]; intros prev out Hin; cbn [clip_loop].
  - now rewrite app_nil_r.
  - apply Forall_cons in Hin as [Hcur Hrest]. cbv zeta. rewrite Hcur. cbn [andb].
    rewrite IH by exact Hrest. now rewrite <- app_assoc.
Qed.

Lemma clip_loop_outside (poly : list Vec3) (prev : Vec3) (out : list Vec3) :
  Forall (fun p => inside p = false) poly ->
  clip_loop poly prev false out = out.
Proof.
  revert prev out. induction poly as [| cur rest IH]; intros prev out Hin; cbn [clip_loop].
  - reflexivity.
  - apply Forall_cons in Hin as [Hcur Hrest]. cbv zeta. rewrite Hcur. cbn [andb negb].
    now apply IH.
Qed.

Lemma clip_loop_vertices (P : Vec3 -> Prop) (poly : list Vec3) (prev : Vec3)
    (prev_in : bool) (out : list Vec3) :
  (forall p, on_near_plane p -> P p) ->
  Forall (fun p => inside p = true -> P p) poly ->
  Forall P out ->
  Forall P (clip_loop poly prev prev_in out)
  /\ (length (clip_loop poly prev prev_in out) <= length out + 2 * length poly)%nat.
Proof.
  intros Hnear. revert prev prev_in out.
  induction poly as [| cur rest IH]; intros prev prev_in out Hpoly Hout; cbn [clip_loop].
  - split; [exact Hout | cbn; lia].
  - apply Forall_cons in Hpoly as [Hcur Hrest]. cbv zeta.
    set (out' := if inside cur && prev_in then _ else _).
    assert (Forall P out' /\ (length out' <= length out + 2)%nat) as [Hout' Hlen].
    { subst out'.
      destruct (inside cur) eqn:Hc, prev_in; cbn [andb negb];
        try destruct (intersect prev cur) as [i|] eqn:Hi;
        rewrite ?Forall_app, ?Forall_singleton, ?length_app; cbn [length];
        repeat split; auto; try lia;
        apply Hnear; eapply intersect_on_near_plane; exact Hi. }
    destruct (IH cur (inside cur) out' Hrest Hout') as [IH1 IH2].
    split; [exact IH1|]. cbn [length]. lia.
Qed.

Lemma existsb_bad_vertex (out : list Vec3) :
  existsb bad_vertex out = false -> Forall drawable out.
Proof.
  induction out as [| p out IH]; cbn [existsb]; intros Hbad; [constructor|].
  apply orb_false_iff in Hbad as [Hp Hrest]. constructor; [| now apply IH].
  destruct p as [[px py] pz]. unfold bad_vertex in Hp.
  apply orb_false_iff in Hp as [Hfin Hlt]. split; [| exact Hlt].
  cbn [vertex_z]. now apply negb_false_iff.
Qed.

Lemma rev_head_elem (poly : list Vec3) (prev : Vec3) (l : list Vec3) :
  rev poly = prev :: l -> prev ∈ poly.
Proof.
  intros Hrev. rewrite <- (rev_involutive poly), Hrev. cbn [rev].
  apply elem_of_app. right. now apply list_elem_of_singleton.
Qed.

(** X14.  What [clip_poly_near] returns is empty or a polygon of at least
    three vertices, each of finite depth and not nearer than the near
    plane, and each either a vertex of the input on the visible side or a
    vertex placed at NEAR + 0.001 by [intersect]; it has at most two
    vertices for each one of the input. *)
Theorem clip_poly_near_clipped (poly : list Vec3) : clipped poly (clip_poly_near poly).
Proof.
  unfold clipped, clip_poly_near.
  destruct (rev poly) as [| prev l]; [now left|].
  destruct (length poly <? 3)%nat; [now left|]. cbv zeta.
  set (out := clip_loop poly prev (inside prev) []).
  destruct (length out <? 3)%nat eqn:Hlen; [now left|].
  destruct (existsb bad_vertex out) eqn:Hbad; [now left|]. right.
  apply Nat.ltb_ge in Hlen. split; [exact Hlen|].
  destruct (clip_loop_vertices
              (fun p => (p ∈ poly /\ inside p = true) \/ on_near_plane p)
              poly prev (inside prev) []) as [Hv Hl].
  { intros p Hp. now right. }
  { apply Forall_forall. intros p Hp Hin. left. split; assumption. }
  { constructor. }
  fold out in Hv, Hl. split; [cbn [length] in Hl; lia|].
  apply existsb_bad_vertex in Hbad.
  apply Forall_forall. intros p Hp. split.
  - exact (proj1 (Forall_forall _ _) Hbad p Hp).
  - exact (proj1 (Forall_forall _ _) Hv p Hp).
Qed.

(** X15.  A polygon of three or more vertices that all lie at a finite
    depth on the visible side of the near plane is returned as it is. *)
Theorem clip_poly_near_visible (poly : list Vec3) :
  (3 <= length poly)%nat ->
  Forall (fun p => inside p = true /\ is_finite (vertex_z p) = true) poly ->
  clip_poly_near poly = poly.
Proof.
  intros Hlen Hvis. unfold clip_poly_near.
  destruct (rev poly) as [| prev l] eqn:Hrev.
  { apply (f_equal (@length Vec3)) in Hrev. rewrite length_rev in Hrev.
    cbn in Hrev. lia. }
  pose proof (rev_head_elem poly prev l Hrev) as Hprev.
  assert (Forall (fun p => inside p = true) poly) as Hin
    by (eapply Forall_impl; [exact Hvis | intros p [Hp _]; exact Hp]).
  rewrite (proj2 (Nat.ltb_ge _ _) Hlen). cbv zeta.
  rewrite (proj1 (Forall_forall _ _) Hin prev Hprev).
  rewrite clip_loop_inside by exact Hin. cbn [app].
  rewrite (proj2 (Nat.ltb_ge _ _) Hlen).
  assert (existsb bad_vertex poly = false) as ->; [| reflexivity].
  clear -Hvis. induction Hvis as [| p poly [Hp Hf] _ IH]; [reflexivity|].
  cbn [existsb]. rewrite IH, orb_false_r.
  rewrite inside_vertex_z in Hp. destruct p as [[px py] pz]. cbn [vertex_z] in *.
  unfold bad_vertex. rewrite Hf. cbn [negb orb]. now apply leb_ltb_false.
Qed.

(** X16.  A polygon with no vertex on the visible side of the near plane
    (a depth below NEAR, or not a number) is clipped away. *)
Theorem clip_poly_near_hidden (poly : list Vec3) :
  Forall (fun p => inside p = false) poly ->
  clip_poly_near poly = [].
Proof.
  intros Hhid. unfold clip_poly_near.
  destruct (rev poly) as [| prev l] eqn:Hrev; [reflexivity|].
  pose proof (rev_head_elem poly prev l Hrev) as Hprev.
  destruct (length poly <? 3)%nat; [reflexivity|]. cbv zeta.
  rewrite (proj1 (Forall_forall _ _) Hhid prev Hprev).
  rewrite clip_loop_outside by exact Hhid. reflexivity.
Qed.

Lemma clip_poly_near_visible_witness : clip_poly_near triangle_ahead = triangle_ahead.
Proof.
  apply (clip_poly_near_visible triangle_ahead).
  - cbn. lia.
  - repeat (apply List.Forall_cons; [split; vm_compute; reflexivity|]). apply List.Forall_nil.
Defined.

Lemma clip_poly_near_hidden_witness : clip_poly_near triangle_behind = [].
Proof.
  apply (clip_poly_near_hidden triangle_behind).
  repeat (apply List.Forall_cons; [vm_compute; reflexivity|]). apply List.Forall_nil.
Defined.

(** ** The size of a debris burst *)

(** X17.  A collapsing wall throws at least 250 and at most 1200 debris
    particles, and never more than an earlier collapse did: the burst
    shrinks as the number of destroyed walls grows. *)
Theorem num_particles_bounds (n k : nat) :
  (250 <= num_particles (n + k) <= num_particles n)%nat
  /\ (num_particles n <= 1200)%nat.
Proof.
  pose proof (num_particles_range (n + k)) as [Hlo _].
  pose proof (num_particles_range n) as [_ Hhi].
  pose proof (num_particles_antitone n (n + k) ltac:(lia)) as Hmono.
  lia.
Qed.

(** ** collision.py: the segments of the solver *)

Section segment_queries.
Context `{PyRuntime}.

Lemma wp_has_wall_between_decay s (x1 z1 x2 z2 : Z) :
  caches_ok (world s) ->
  wp (has_wall_between x1 z1 x2 z2) s (fun b t =>
    wall_exists (world_seed (world s)) x1 z1 x2 z2 = Some b /\ collision_frame s t
    /\ destroyed_walls (world t) ⊆ {[sorted_key (x1, z1) (x2, z2)]} ∪ destroyed_walls (world s)).
Proof.
  intros Hok. eapply wp_mono; [apply wp_has_wall_between; exact Hok|].
  intros b t (Hex & Hok' & Hfr & _ & _ & Hhit & Hmiss). cbv beta.
  split; [exact Hex|].
  assert (destroyed_walls (world s) ⊆ destroyed_walls (world t)
          /\ destroyed_walls (world t)
             ⊆ {[sorted_key (x1, z1) (x2, z2)]} ∪ destroyed_walls (world s)) as [Hsub Hsup].
  { destruct (wall_cache (world s) !! sorted_key (x1, z1) (x2, z2)) as [c|] eqn:Hc.
    - rewrite (Hhit (mk_is_Some _ _ eq_refl)). split; [reflexivity | apply union_subseteq_r].
    - specialize (Hmiss eq_refl). destruct b.
      + unfold decay_outcome in Hmiss. cbv zeta in Hmiss.
        destruct (pre_damaged_walls (world s) !! sorted_key (x1, z1) (x2, z2)).
        * destruct Hmiss as [_ ->]. split; [reflexivity | apply union_subseteq_r].
        * destruct (decay_chance_total (world_seed (world s)) x1 z1 x2 z2) as [chance Hch].
          destruct (Hmiss chance Hch) as [_ ->].
          match goal with |- context [if ?c then _ else _] => destruct c end;
            (split; [first [apply union_subseteq_r | reflexivity]
                    | first [reflexivity | apply union_subseteq_r]]).
      + destruct Hmiss as [_ ->]. split; [reflexivity | apply union_subseteq_r]. }
  split; [| exact Hsup]. split; [exact Hok'|]. split; [exact Hfr | exact Hsub].
Qed.

Lemma wp_cell_wall_segments s (x1 z1 x2 z2 wall_start wall_across : Z)
    (mk : float -> float -> float * float) :
  caches_ok (world s) ->
  wp (cell_wall_segments x1 z1 x2 z2 wall_start wall_across mk) s (fun segments t =>
    collision_frame s t
    /\ destroyed_walls (world t) ⊆ {[sorted_key (x1, z1) (x2, z2)]} ∪ destroyed_walls (world s)
    /\ segments = wall_segments_at (world_seed (world s)) (destroyed_walls (world t))
                                   x1 z1 x2 z2 wall_start wall_across mk).
Proof.
  intros Hok. unfold cell_wall_segments, world_get_doorway_type, wall_segments_at. wp_step.
  eapply wp_mono; [apply wp_has_wall_between_decay; exact Hok|].
  intros hw t (Hex & Hfr & Hsup). cbv beta. rewrite Hex.
  pose proof Hfr as (_ & (_ & _ & Hseed & _) & _).
  destruct hw; [| wp_steps; auto].
  cbv zeta. wp_steps.
  destruct (decide (sorted_key (x1, z1) (x2, z2) ∈ destroyed_walls (world t))) as [Hin | Hout].
  - rewrite !(bool_decide_eq_true_2 _ Hin). cbn [negb]. wp_steps.
    rewrite (bool_decide_eq_true_2 _ Hin). auto.
  - rewrite !(bool_decide_eq_false_2 _ Hout). cbn [negb]. wp_steps.
    rewrite (bool_decide_eq_false_2 _ Hout), Hseed. auto.
Qed.

Lemma wp_cell_pillar_segments s (px pz : Z) :
  caches_ok (world s) ->
  wp (cell_pillar_segments px pz) s (fun segments t =>
    collision_frame s t
    /\ destroyed_walls (world t) = destroyed_walls (world s)
    /\ segments = pillar_segments_at (world_seed (world s)) (destroyed_pillars (world s)) px pz).
Proof.
  intros Hok. unfold cell_pillar_segments, pillar_segments_at. cbv zeta. wp_step.
  eapply wp_mono; [apply wp_has_pillar_at; exact Hok|].
  intros hp t (-> & Hok' & Hco & _). cbv beta.
  assert (collision_frame s t) as Hfr.
  { split; [exact Hok'|]. split; [apply caches_only_frame; exact Hco|].
    destruct Hco as (_ & _ & _ & -> & _). reflexivity. }
  destruct Hco as (_ & _ & _ & Hdw & Hdp & _).
  destruct (pillar_exists _ _ _); cbn [andb]; [| wp_steps; auto].
  wp_steps. rewrite Hdp.
  match goal with |- context [bool_decide ?P] => destruct (decide P) as [Hin | Hout] end.
  - rewrite !(bool_decide_eq_true_2 _ Hin). cbn [negb]. wp_steps.
    rewrite ?(bool_decide_eq_true_2 _ Hin). auto.
  - rewrite !(bool_decide_eq_false_2 _ Hout). cbn [negb]. wp_steps.
    rewrite ?(bool_decide_eq_false_2 _ Hout). auto.
Qed.

Lemma wall_segments_at_ext (seed : Z) (d d' : gset WallKey)
    (x1 z1 x2 z2 wall_start wall_across : Z) (mk : float -> float -> float * float) :
  (sorted_key (x1, z1) (x2, z2) ∈ d <-> sorted_key (x1, z1) (x2, z2) ∈ d') ->
  wall_segments_at seed d x1 z1 x2 z2 wall_start wall_across mk
  = wall_segments_at seed d' x1 z1 x2 z2 wall_start wall_across mk.
Proof.
  intros Hiff. unfold wall_segments_at.
  destruct (wall_exists seed x1 z1 x2 z2) as [[|]|]; try reflexivity.
  rewrite (bool_decide_ext _ _ Hiff). reflexivity.
Qed.

Lemma cell_keys_differ (px pz : Z) :
  sorted_key (px, pz) (px + config.PILLAR_SPACING, pz)
  ≠ sorted_key (px, pz) (px, pz + config.PILLAR_SPACING).
Proof.
  intros Heq. apply sorted_key_inv in Heq. unfold config.PILLAR_SPACING in Heq.
  destruct Heq as [[_ Heq] | [Heq _]]; injection Heq; lia.
Qed.

Lemma wp_cell_segments s (px pz : Z) :
  caches_ok (world s) ->
  wp (cell_segments px pz) s (fun segments t =>
    segments = cell_segments_at (world_seed (world s)) (destroyed_walls (world t))
                                (destroyed_pillars (world s)) px pz
    /\ collision_frame s t).
Proof.
  intros Hok. unfold cell_segments. wp_step.
  eapply wp_mono; [apply wp_cell_wall_segments; exact Hok|].
  intros s1 t1 (Hfr1 & Hsup1 & ->). cbv beta. wp_step.
  eapply wp_mono; [apply wp_cell_wall_segments; apply Hfr1|].
  intros s2 t2 (Hfr2 & Hsup2 & ->). cbv beta. wp_step.
  eapply wp_mono; [apply wp_cell_pillar_segments; apply Hfr2|].
  intros s3 t3 (Hfr3 & Hdw3 & ->). cbv beta. wp_steps.
  pose proof Hfr1 as (_ & (_ & _ & Hseed1 & Hdp1 & _) & Hsub1).
  pose proof Hfr2 as (_ & (_ & _ & Hseed2 & Hdp2 & _) & Hsub2).
  split; [| eapply collision_frame_trans; [| exact Hfr3];
            eapply collision_frame_trans; eassumption].
  unfold cell_segments_at. rewrite Hseed2, Hseed1, Hdp2, Hdp1, Hdw3. f_equal.
  apply wall_segments_at_ext. split; [apply Hsub2|].
  intros Hin. apply Hsup2 in Hin. apply elem_of_union in Hin as [Hin | Hin]; [| exact Hin].
  apply elem_of_singleton in Hin. now apply cell_keys_differ in Hin.
Qed.


Lemma wall_segments_axis_aligned (opening_type : option string) (wall_start wall_across : Z)
    (mk : float -> float -> float * float) :
  (forall along across, mk along across = (along, across))
  \/ (forall along across, mk along across = (across, along)) ->
  Forall axis_aligned (wall_segments opening_type wall_start wall_across mk).
Proof.
  intros Hmk. unfold wall_segments. cbv zeta.
  destruct (0 <? opening_width_of opening_type);
    destruct Hmk as [Hmk | Hmk]; rewrite !Hmk; cbn [fst snd];
    repeat (apply List.Forall_cons; [unfold axis_aligned; auto|]); apply List.Forall_nil.
Qed.

Lemma cell_segments_at_axis_aligned (seed : Z) (d : gset WallKey) (dp : gset PillarKey)
    (px pz : Z) :
  Forall axis_aligned (cell_segments_at seed d dp px pz).
Proof.
  unfold cell_segments_at, wall_segments_at, pillar_segments_at. cbv zeta.
  rewrite !Forall_app. split; [| split].
  - destruct (wall_exists _ _ _ _ _) as [[|]|]; try constructor.
    case_bool_decide; [constructor|]. apply wall_segments_axis_aligned. now left.
  - destruct (wall_exists _ _ _ _ _) as [[|]|]; try constructor.
    case_bool_decide; [constructor|]. apply wall_segments_axis_aligned. now right.
  - destruct (_ && _); [| constructor]. unfold pillar_sides. cbv zeta.
    repeat (apply List.Forall_cons; [unfold axis_aligned; auto|]); apply List.Forall_nil.
Qed.

(** A loop whose body keeps the frame and collects axis-aligned segments. *)
Lemma wp_collect_M {A : Type} (body : A -> M (list Segment)) (l : list A) s :
  (forall a t, caches_ok (world t) ->
     wp (body a) t (fun segments u => collision_frame t u /\ Forall axis_aligned segments)) ->
  caches_ok (world s) ->
  wp (collect_M body l) s (fun segments t =>
    collision_frame s t /\ Forall axis_aligned segments).
Proof.
  intros Hbody. revert s. induction l as [| a l IH]; intros s Hok; cbn [collect_M].
  - wp_steps. split; [now apply collision_frame_refl | constructor].
  - wp_step. eapply wp_mono; [apply Hbody; exact Hok|].
    intros s1 t (Hfr & Hs1). cbv beta. wp_step.
    eapply wp_mono; [apply IH; apply Hfr|].
    intros s2 u (Hfr' & Hs2). cbv beta. wp_steps.
    split; [eapply collision_frame_trans; eassumption | apply Forall_app; auto].
Qed.

(** X20.  For a finite position and coherent caches [_get_nearby_segments]
    returns: no lookup of it fails (on a position that is not finite it
    raises).  Every segment it returns is parallel to
    an axis, and it changes only the caches, the pre-damage dict and the
    destroyed walls, of which none is restored. *)
Theorem nearby_segments_axis_aligned (s : St) (x z : float) :
  is_finite x = true -> is_finite z = true ->
  caches_ok (world s) ->
  nearby_segments_ok x z s.
Proof.
  intros Hx Hz Hok. unfold nearby_segments_ok.
  assert (wp (_get_nearby_segments x z) s (fun segments t =>
            collision_frame s t /\ Forall axis_aligned segments))
    as (segments & t & Hrun & Hfr & Hax); [| exists segments, t; auto].
  unfold _get_nearby_segments. rewrite Hx, Hz. cbn [negb orb]. cbv zeta.
  apply wp_collect_M; [| exact Hok]. intros px u Hu.
  apply wp_collect_M; [| exact Hu]. intros pz v Hv.
  eapply wp_mono; [apply wp_cell_segments; exact Hv|].
  intros segments t [-> Hfr]. split; [exact Hfr | apply cell_segments_at_axis_aligned].
Qed.

End segment_queries.


Lemma nearby_segments_axis_aligned_witness :
  nearby_segments_ok (float_of_Z 200) (float_of_Z 200) (St_init 12).
Proof.
  apply (nearby_segments_axis_aligned (St_init 12) (float_of_Z 200) (float_of_Z 200)).
  - vm_compute. reflexivity.
  - vm_compute. reflexivity.
  - apply caches_ok_init.
Defined.

(** ** get_doorway_type *)

Section doorways.
Context `{PyRuntime}.

(** X21.  For a wall along an axis [get_doorway_type] gives the same
    opening whichever endpoint is named first. *)
Theorem doorway_type_symmetric (seed x1 z1 x2 z2 : Z) :
  z1 = z2 \/ x1 = x2 ->
  get_doorway_type seed x1 z1 x2 z2 = get_doorway_type seed x2 z2 x1 z1.
Proof.
  intros Haxis. unfold get_doorway_type. cbv zeta.
  rewrite (Z.eqb_sym z2 z1), (Z.add_comm x2 x1), (Z.add_comm z2 z1).
  destruct (Z.eqb_spec z1 z2) as [-> | Hne]; [reflexivity|].
  destruct Haxis as [-> | ->]; [contradiction | reflexivity].
Qed.

End doorways.

Lemma doorway_type_symmetric_witness :
  get_doorway_type 42 0 0 400 0 = get_doorway_type 42 400 0 0 0.
Proof.
  apply (doorway_type_symmetric 42 0 0 400 0). left. reflexivity.
Defined.
